(** * Insight Mapping EDA engine: a shallow embedding and its properties

    The development follows the Python sources module by module:

    - [utils.py]                 column classifier ([is_numeric], [is_categorical]);
    - [correlation_analysis.py]  [ss_chi2], [cramers_v], the two correlation matrices;
    - [cleaning_insights.py]     missing-value summary, duplicate summary, quality
                                 score, outlier detection;
    - [data_loader.py], [main.py] loading and the top-level run.

    Numbers.  The Python code computes in IEEE-754 binary64 (numpy [float64]
    and Python [float]).  Every numeric routine below is written once, over an
    interface [Arith] of the operations the code uses, and the interface has
    two instances:

    - [binary64]: Rocq's primitive floats, which are IEEE-754 binary64 with
      round-to-nearest-even, so the routines run bit for bit;
    - [exact]: the real numbers extended with the three special values
      [+inf], [-inf], [NaN] that numpy produces on a division by zero; no
      rounding and no overflow.

    Integer counts are unbounded [Z] (numpy's [int64] does not wrap on any
    table that fits in memory).

    What the sources call and do not define -- pandas' [crosstab], [corr],
    [quantile], [duplicated], [nunique], [sort_values] and dtype predicates,
    numpy's [nan_to_num] -- is written out from the documented behaviour of
    these routines; the file system and the format readers are parameters
    ([Environment]).

    Part I is the embedding, Part II the vocabulary of the statements,
    Part III the proofs of the specification's claims, Part IV further
    properties of the same code. *)

From Stdlib Require Import Floats Uint63.
From Stdlib Require Import String Ascii.
From Stdlib Require Import ZArith QArith Qround Reals List Bool Lia Lra Psatz.
From Stdlib Require Import Sorted Permutation Qreals.
Import ListNotations.

Set Implicit Arguments.

(* ================================================================== *)
(** * Part I.  The embedding                                           *)
(* ================================================================== *)

(** ** Arithmetic interface *)

Class Arith (F : Type) : Type := {
  of_Z : Z -> F;                 (* int -> float64 conversion *)
  fadd : F -> F -> F;
  fsub : F -> F -> F;
  fmul : F -> F -> F;
  fdiv : F -> F -> F;            (* numpy true division: x/0 is inf or nan *)
  fsqrt : F -> F;
  fltb : F -> F -> bool;         (* <  ; false on NaN *)
  fleb : F -> F -> bool;         (* <= ; false on NaN *)
  feqb : F -> F -> bool;         (* == ; false on NaN *)
  nan_to_num : F -> F            (* numpy.nan_to_num with its defaults *)
}.

(** A decimal or rational literal, such as [0.25] or [1.5]. *)
Definition of_Q {F} `{Arith F} (q : Q) : F :=
  fdiv (of_Z (Qnum q)) (of_Z (Zpos (Qden q))).

(** Python's built-in [max(a, b)] and [min(a, b)] on two arguments: the first
    argument is kept unless the second compares strictly beyond it. *)
Definition py_max {F} `{Arith F} (a b : F) : F := if fltb a b then b else a.
Definition py_min {F} `{Arith F} (a b : F) : F := if fltb b a then b else a.

(** [ndarray.sum()] of a float array: left-to-right accumulation (numpy's
    order below eight elements; longer arrays are summed pairwise, which
    gives the same value in exact arithmetic). *)
Definition fsum {F} `{Arith F} (l : list F) : F := fold_left fadd l (of_Z 0).

(** *** Instance 1: IEEE-754 binary64 *)

(** Conversion of an integer, correctly rounded (exact below [2^53]). *)
Definition Z_to_float (z : Z) : float :=
  SF2Prim (binary_normalize prec emax z 0 false).

(** Largest finite binary64 number, [(2 - 2^-52) * 2^1023]. *)
Definition float_max : float := 0x1.fffffffffffffp+1023%float.

Definition float_nan_to_num (x : float) : float :=
  if negb (PrimFloat.eqb x x) then PrimFloat.zero
  else if PrimFloat.eqb x PrimFloat.infinity then float_max
  else if PrimFloat.eqb x PrimFloat.neg_infinity then PrimFloat.opp float_max
  else x.

#[export] Instance binary64 : Arith float := {|
  of_Z := Z_to_float;
  fadd := PrimFloat.add;
  fsub := PrimFloat.sub;
  fmul := PrimFloat.mul;
  fdiv := PrimFloat.div;
  fsqrt := PrimFloat.sqrt;
  fltb := PrimFloat.ltb;
  fleb := PrimFloat.leb;
  feqb := PrimFloat.eqb;
  nan_to_num := float_nan_to_num
|}.

(** *** Instance 2: exact arithmetic with the IEEE special values *)

Local Open Scope R_scope.

Inductive xreal : Type :=
| Fin (x : R)
| PInf
| NInf
| NaN.

Definition Rltb (a b : R) : bool := if Rlt_dec a b then true else false.
Definition Rleb (a b : R) : bool := if Rle_dec a b then true else false.
Definition Reqb (a b : R) : bool := if Req_dec_T a b then true else false.

Definition xopp (x : xreal) : xreal :=
  match x with
  | Fin a => Fin (- a)
  | PInf => NInf
  | NInf => PInf
  | NaN => NaN
  end.

Definition xadd (x y : xreal) : xreal :=
  match x, y with
  | Fin a, Fin b => Fin (a + b)
  | NaN, _ | _, NaN => NaN
  | PInf, NInf | NInf, PInf => NaN
  | PInf, _ | _, PInf => PInf
  | NInf, _ | _, NInf => NInf
  end.

Definition xsub (x y : xreal) : xreal := xadd x (xopp y).

(** An infinity [s] multiplied by the finite number [a]. *)
Definition xscale (a : R) (s : xreal) : xreal :=
  if Reqb a 0 then NaN else if Rltb 0 a then s else xopp s.

Definition xmul (x y : xreal) : xreal :=
  match x, y with
  | Fin a, Fin b => Fin (a * b)
  | NaN, _ | _, NaN => NaN
  | Fin a, s | s, Fin a => xscale a s
  | PInf, PInf | NInf, NInf => PInf
  | PInf, NInf | NInf, PInf => NInf
  end.

(** Division; a zero divisor is the positive zero (the divisors of the code
    that can vanish are counts and products of counts). *)
Definition xdiv (x y : xreal) : xreal :=
  match x, y with
  | Fin a, Fin b =>
      if Reqb b 0
      then (if Reqb a 0 then NaN else if Rltb 0 a then PInf else NInf)
      else Fin (a / b)
  | NaN, _ | _, NaN => NaN
  | Fin _, _ => Fin 0
  | s, Fin b => if Rltb b 0 then xopp s else s
  | _, _ => NaN
  end.

Definition xsqrt (x : xreal) : xreal :=
  match x with
  | Fin a => if Rltb a 0 then NaN else Fin (sqrt a)
  | PInf => PInf
  | _ => NaN
  end.

Definition xltb (x y : xreal) : bool :=
  match x, y with
  | Fin a, Fin b => Rltb a b
  | NaN, _ | _, NaN => false
  | _, NInf | PInf, _ => false
  | _, _ => true
  end.

Definition xleb (x y : xreal) : bool :=
  match x, y with
  | Fin a, Fin b => Rleb a b
  | NaN, _ | _, NaN => false
  | NInf, _ | _, PInf => true
  | _, _ => false
  end.

Definition xeqb (x y : xreal) : bool :=
  match x, y with
  | Fin a, Fin b => Reqb a b
  | PInf, PInf | NInf, NInf => true
  | _, _ => false
  end.

(** The value of [float_max] as a real number. *)
Definition real_max : R := IZR (2 ^ 1024 - 2 ^ 971).

Definition xnan_to_num (x : xreal) : xreal :=
  match x with
  | Fin a => Fin a
  | PInf => Fin real_max
  | NInf => Fin (- real_max)
  | NaN => Fin 0
  end.

#[export] Instance exact : Arith xreal := {|
  of_Z := fun z => Fin (IZR z);
  fadd := xadd;
  fsub := xsub;
  fmul := xmul;
  fdiv := xdiv;
  fsqrt := xsqrt;
  fltb := xltb;
  fleb := xleb;
  feqb := xeqb;
  nan_to_num := xnan_to_num
|}.

Local Close Scope R_scope.

(** ** correlation_analysis.py: the chi-squared statistic and Cramer's V *)

(** A contingency table as pandas hands it over: the rows of an integer
    matrix ([confusion_matrix.to_numpy()]). *)
Definition table : Type := list (list Z).

Definition zsum (l : list Z) : Z := fold_right Z.add 0%Z l.

(** [confusion_matrix.shape] *)
Definition nrows (t : table) : nat := length t.
Definition ncols (t : table) : nat := length (hd [] t).

(** [observed.sum(axis=1)], [observed.sum(axis=0)], [observed.sum()] *)
Definition row_sum (t : table) : list Z := map zsum t.
Definition col_sum (t : table) : list Z :=
  map (fun j => zsum (map (fun row => nth j row 0%Z) t)) (seq 0 (ncols t)).
Definition total (t : table) : Z := zsum (map zsum t).

Section Chi2.
Context {F : Type} `{Arith F}.

(** One cell of [(observed - expected) ** 2 / expected] after
    [nan_to_num], for [expected = row_sum @ col_sum / total]. *)
Definition chi2_cell (tot ri cj o : Z) : F :=
  let expected := fdiv (of_Z (ri * cj)) (of_Z tot) in
  let d := fsub (of_Z o) expected in
  nan_to_num (fdiv (fmul d d) expected).

(** The same cell when [total] is 0 and [expected] is the integer 0: the
    subtraction and the square are integer operations, the division is a
    float division by zero. *)
Definition chi2_cell0 (o : Z) : F :=
  nan_to_num (fdiv (of_Z ((o - 0) ^ 2)) (of_Z 0)).

Definition chi2_terms (t : table) : list F :=
  let rs := row_sum t in
  let cs := col_sum t in
  let tot := total t in
  concat
    (map (fun rw : list Z * Z =>
            map (fun oc : Z * Z =>
                   if (tot =? 0)%Z then chi2_cell0 (fst oc)
                   else chi2_cell tot (snd rw) (snd oc) (fst oc))
                (combine (fst rw) cs))
         (combine t rs)).

Definition ss_chi2 (t : table) : F :=
  if (nrows t * ncols t =? 0)%nat then of_Z 0
  else fsum (chi2_terms t).

Definition cramers_v (t : table) : F :=
  let chi2 := ss_chi2 t in
  let n := total t in
  if (n =? 0)%Z then of_Z 0
  else
    let phi2 := fdiv chi2 (of_Z n) in
    let r := Z.of_nat (nrows t) in
    let k := Z.of_nat (ncols t) in
    let phi2corr :=
      if (1 <? n)%Z
      then py_max (of_Z 0)
             (fsub phi2 (fdiv (of_Z ((k - 1) * (r - 1))) (of_Z (n - 1))))
      else of_Z 0 in
    let rcorr :=
      if (1 <? n)%Z
      then fsub (of_Z r) (fdiv (of_Z ((r - 1) ^ 2)) (of_Z (n - 1)))
      else of_Z 0 in
    let kcorr :=
      if (1 <? n)%Z
      then fsub (of_Z k) (fdiv (of_Z ((k - 1) ^ 2)) (of_Z (n - 1)))
      else of_Z 0 in
    let denom := py_min (fsub kcorr (of_Z 1)) (fsub rcorr (of_Z 1)) in
    if fleb denom (of_Z 0) then of_Z 0
    else fsqrt (fdiv phi2corr denom).
End Chi2.

(** ** Tables

    A pandas [DataFrame] is an index length and an ordered list of named,
    typed columns.  The dtypes are the ones the loaders of [data_loader.py]
    produce; a missing cell (NaN, None, NaT) is [None]. *)

Inductive Dtype : Type :=
| Int64 | UInt64 | Float64 | BoolDtype
| ObjectDtype | StringDtype | Category | Datetime64.

Inductive scalar : Type :=
| Num (q : Q)
| Bln (b : bool)
| Str (s : string).

Definition cell : Type := option scalar.

Record Series : Type := mkSeries {
  name : string;
  dtype : Dtype;
  values : list cell
}.

Record DataFrame : Type := mkFrame {
  index_len : nat;               (* len(df) *)
  columns : list Series
}.

(** [df.size] and [df.empty] *)
Definition size (df : DataFrame) : nat := (index_len df * length (columns df))%nat.
Definition empty (df : DataFrame) : bool := (size df =? 0)%nat.

(** [df[col]]: the column labelled [col]. *)
Definition getitem (df : DataFrame) (col : string) : Series :=
  match find (fun s => String.eqb (name s) col) (columns df) with
  | Some s => s
  | None => mkSeries col ObjectDtype []
  end.

(** Column labels are pairwise distinct and every column spans the index. *)
Definition well_formed (df : DataFrame) : Prop :=
  NoDup (map name (columns df)) /\
  Forall (fun s => length (values s) = index_len df) (columns df).

(** Equality and order of cell values, as pandas' hashing and sorting see
    them (two missing cells are equal). *)
Definition scalar_eqb (a b : scalar) : bool :=
  match a, b with
  | Num p, Num q => Qeq_bool p q
  | Bln x, Bln y => Bool.eqb x y
  | Str s, Str t => String.eqb s t
  | _, _ => false
  end.

Definition cell_eqb (a b : cell) : bool :=
  match a, b with
  | None, None => true
  | Some x, Some y => scalar_eqb x y
  | _, _ => false
  end.

Definition scalar_rank (a : scalar) : nat :=
  match a with Bln _ => 0 | Num _ => 1 | Str _ => 2 end.

Definition scalar_leb (a b : scalar) : bool :=
  match a, b with
  | Num p, Num q => Qle_bool p q
  | Bln x, Bln y => implb x y
  | Str s, Str t => String.leb s t
  | _, _ => (scalar_rank a <=? scalar_rank b)%nat
  end.

(** [series.dropna()] *)
Definition dropna (l : list cell) : list scalar :=
  flat_map (fun c => match c with Some v => [v] | None => [] end) l.

(** [unique()]: first occurrences, in order of appearance. *)
Fixpoint unique (l : list scalar) : list scalar :=
  match l with
  | [] => []
  | x :: l' => x :: filter (fun y => negb (scalar_eqb x y)) (unique l')
  end.

Fixpoint insert_sorted (x : scalar) (l : list scalar) : list scalar :=
  match l with
  | [] => [x]
  | y :: l' => if scalar_leb x y then x :: l else y :: insert_sorted x l'
  end.

Definition sort_values (l : list scalar) : list scalar :=
  fold_right insert_sorted [] l.

(** [series.nunique(dropna=True)] *)
Definition nunique (s : Series) : nat := length (unique (dropna (values s))).

(** ** utils.py: the column classifier *)

(** [pd.api.types.is_numeric_dtype]: numpy's number kinds and the boolean
    kind. *)
Definition is_numeric_dtype (d : Dtype) : bool :=
  match d with
  | Int64 | UInt64 | Float64 | BoolDtype => true
  | _ => false
  end.

Definition is_bool_dtype (d : Dtype) : bool :=
  match d with BoolDtype => true | _ => false end.

Definition is_object_dtype (d : Dtype) : bool :=
  match d with ObjectDtype => true | _ => false end.

Definition is_numeric (s : Series) : bool := is_numeric_dtype (dtype s).

Definition is_categorical (s : Series) (max_unique : nat) : bool :=
  if is_bool_dtype (dtype s) || is_object_dtype (dtype s) then true
  else (nunique s <=? max_unique)%nat && negb (is_numeric s).

Definition default_max_unique : nat := 50.

Definition get_numeric_columns (df : DataFrame) : list string :=
  filter (fun col => is_numeric_dtype (dtype (getitem df col)))
         (map name (columns df)).

Definition get_categorical_columns (df : DataFrame) : list string :=
  filter (fun col => is_categorical (getitem df col) default_max_unique)
         (map name (columns df)).

(** ** correlation_analysis.py: contingency tables and the two matrices *)

(** The rows of two columns where both cells are present. *)
Definition joint (xs ys : list cell) : list (scalar * scalar) :=
  flat_map (fun p : cell * cell =>
              match p with
              | (Some x, Some y) => [(x, y)]
              | _ => []
              end)
           (combine xs ys).

Definition count_pairs (ps : list (scalar * scalar)) (a b : scalar) : Z :=
  Z.of_nat (length (filter (fun p => scalar_eqb (fst p) a && scalar_eqb (snd p) b) ps)).

(** [pd.crosstab(x, y)]: one row per value of [x] and one column per value
    of [y] seen in a jointly present row, both sorted; cells are counts. *)
Definition crosstab (xs ys : list cell) : table :=
  let ps := joint xs ys in
  let row_labels := sort_values (unique (map fst ps)) in
  let col_labels := sort_values (unique (map snd ps)) in
  map (fun a => map (fun b => count_pairs ps a b) col_labels) row_labels.

(** A square result frame: labels on both axes and the rows of entries.
    [pd.DataFrame()] is the frame without labels. *)
Record Matrix (F : Type) : Type := mkMatrix {
  labels : list string;
  entries : list (list F)
}.

Definition empty_matrix {F : Type} : Matrix F := mkMatrix [] [].

Section Correlation.
Context {F : Type} `{Arith F}.

Definition fnan : F := fdiv (of_Z 0) (of_Z 0).

(** [to_numpy(dtype=float)] of one cell of a numeric column. *)
Definition to_float (c : cell) : option F :=
  match c with
  | Some (Num q) => Some (of_Q q)
  | Some (Bln b) => Some (of_Z (if b then 1 else 0))
  | _ => None
  end.

Definition valid_pairs (xs ys : list cell) : list (F * F) :=
  flat_map (fun p : cell * cell =>
              match to_float (fst p), to_float (snd p) with
              | Some x, Some y => [(x, y)]
              | _, _ => []
              end)
           (combine xs ys).

Definition mean (l : list F) : F := fdiv (fsum l) (of_Z (Z.of_nat (length l))).

(** One entry of [DataFrame.corr()] (Pearson, [min_periods = 1]): over the
    rows where both columns are present, the co-moment divided by the
    square root of the product of the two second moments, and NaN when
    there is no such row or the divisor is zero.  The moments are written
    as plain sums (pandas updates them in one pass, with the same exact
    value). *)
Definition pearson (xs ys : list cell) : F :=
  let ps := valid_pairs xs ys in
  if (length ps <? 1)%nat then fnan
  else
    let mx := mean (map fst ps) in
    let my := mean (map snd ps) in
    let ssx := fsum (map (fun p => fmul (fsub (fst p) mx) (fsub (fst p) mx)) ps) in
    let ssy := fsum (map (fun p => fmul (fsub (snd p) my) (fsub (snd p) my)) ps) in
    let cov := fsum (map (fun p => fmul (fsub (fst p) mx) (fsub (snd p) my)) ps) in
    let divisor := fsqrt (fmul ssx ssy) in
    if feqb divisor (of_Z 0) then fnan else fdiv cov divisor.

(** [df[cols].corr()]: pandas fills the lower triangle and mirrors it. *)
Definition corr (df : DataFrame) (cols : list string) : Matrix F :=
  let K := length cols in
  let column i := values (getitem df (nth i cols EmptyString)) in
  mkMatrix cols
    (map (fun i =>
            map (fun j => pearson (column (Nat.max i j)) (column (Nat.min i j)))
                (seq 0 K))
         (seq 0 K)).

Definition numeric_correlation (df : DataFrame) : Matrix F :=
  let numeric_cols := get_numeric_columns df in
  match numeric_cols with
  | [] => empty_matrix
  | _ => corr df numeric_cols
  end.

Definition categorical_correlation (df : DataFrame) : Matrix F :=
  let cat_cols := get_categorical_columns df in
  if (length cat_cols <? 2)%nat then empty_matrix
  else
    mkMatrix cat_cols
      (map (fun col_x =>
              map (fun col_y =>
                     if String.eqb col_x col_y then of_Z 1
                     else cramers_v (crosstab (values (getitem df col_x))
                                              (values (getitem df col_y))))
                  cat_cols)
           cat_cols).
End Correlation.

(** ** Rounding to decimals

    [py_round] is Python's built-in [round(x, ndigits)] on a [float] (the
    nearest float to the correctly rounded decimal); [np_round] is the same
    call on a [numpy.float64], which numpy computes as
    [rint(x * 10**ndigits) / 10**ndigits].  Both round half to even and
    leave NaN and the infinities alone. *)

Class Rounding (F : Type) : Type := {
  py_round : nat -> F -> F;
  np_round : nat -> F -> F
}.

(** The rational [num / den] ([0 < den]) rounded half to even. *)
Definition round_half_even (num den : Z) : Z :=
  let q := (num / den)%Z in
  let r := (num mod den)%Z in
  match (2 * r ?= den)%Z with
  | Lt => q
  | Gt => (q + 1)%Z
  | Eq => if Z.even q then q else (q + 1)%Z
  end.

(** [x * 10^nd] rounded half to even, for a finite float [x] that is not
    already an integer of magnitude [2^52] or more. *)
Definition float_scaled_round (nd : nat) (x : float) : option Z :=
  match Prim2SF x with
  | S754_zero _ => Some 0%Z
  | S754_finite sgn m e =>
      if (0 <=? e)%Z then None
      else
        let k := round_half_even (Zpos m * 10 ^ Z.of_nat nd) (2 ^ (- e)) in
        Some (if sgn then (- k)%Z else k)
  | _ => None
  end.

Definition float_py_round (nd : nat) (x : float) : float :=
  match float_scaled_round nd x with
  | Some k => PrimFloat.div (Z_to_float k) (Z_to_float (10 ^ Z.of_nat nd))
  | None => x
  end.

Definition float_rint (x : float) : float :=
  match float_scaled_round 0 x with
  | Some k => Z_to_float k
  | None => x
  end.

Definition float_np_round (nd : nat) (x : float) : float :=
  let p := Z_to_float (10 ^ Z.of_nat nd) in
  PrimFloat.div (float_rint (PrimFloat.mul x p)) p.

#[export] Instance binary64_rounding : Rounding float := {|
  py_round := float_py_round;
  np_round := float_np_round
|}.

Local Open Scope R_scope.

(** A real number rounded half to even. *)
Definition Rround_half_even (x : R) : Z :=
  let f := Int_part x in
  let d := x - IZR f in
  if Rltb d (1 / 2) then f
  else if Rltb (1 / 2) d then (f + 1)%Z
  else if Z.even f then f else (f + 1)%Z.

Definition xround (nd : nat) (x : xreal) : xreal :=
  match x with
  | Fin a => Fin (IZR (Rround_half_even (a * IZR (10 ^ Z.of_nat nd))) / IZR (10 ^ Z.of_nat nd))
  | _ => x
  end.

Local Close Scope R_scope.

#[export] Instance exact_rounding : Rounding xreal := {|
  py_round := xround;
  np_round := xround
|}.

(** ** cleaning_insights.py *)

(** [df.isna().sum().sum()] *)
Definition isna_count (df : DataFrame) : Z :=
  zsum (map (fun s => Z.of_nat (length (filter (fun c => cell_eqb c None) (values s))))
            (columns df)).

(** The rows of the columns labelled [subset]. *)
Definition rows (df : DataFrame) (subset : list string) : list (list cell) :=
  map (fun i => map (fun col => nth i (values (getitem df col)) None) subset)
      (seq 0 (index_len df)).

Fixpoint row_eqb (r1 r2 : list cell) : bool :=
  match r1, r2 with
  | [], [] => true
  | c1 :: r1', c2 :: r2' => cell_eqb c1 c2 && row_eqb r1' r2'
  | _, _ => false
  end.

(** [duplicated(keep="first")]: a row is marked when an earlier row equals
    it. *)
Fixpoint duplicated_from (seen rs : list (list cell)) : list bool :=
  match rs with
  | [] => []
  | r :: rs' => existsb (row_eqb r) seen :: duplicated_from (r :: seen) rs'
  end.

(** [df.duplicated(subset=...)]; pandas answers an empty frame with an
    empty mask. *)
Definition duplicated (df : DataFrame) (subset : list string) : list bool :=
  if empty df then [] else duplicated_from [] (rows df subset).

Definition count_true (l : list bool) : Z :=
  Z.of_nat (length (filter (fun b => b) l)).

Record DuplicateSummary (F : Type) : Type := mkDuplicateSummary {
  duplicate_rows : Z;
  duplicate_percent : F;
  total_rows : Z;
  unique_rows : Z;
  duplicates_by_column : list (string * Z)
}.

Record QualityScore (F : Type) : Type := mkQualityScore {
  completeness_score : F;
  uniqueness_score : F;
  overall_score : F
}.

Record OutlierStats (F : Type) : Type := mkOutlierStats {
  outlier_count : Z;
  outlier_percent : F;
  lower_bound : F;
  upper_bound : F
}.

(** [df.select_dtypes(include=[np.number])]: numpy's number kinds; the
    boolean kind is not one of them. *)
Definition is_number_dtype (d : Dtype) : bool :=
  match d with
  | Int64 | UInt64 | Float64 => true
  | _ => false
  end.

Section Cleaning.
Context {F : Type} `{Arith F} `{Rounding F}.

Definition duplicate_rows_summary (df : DataFrame) : DuplicateSummary F :=
  let all_columns := map name (columns df) in
  let dup_count := count_true (duplicated df all_columns) in
  let dup_subset_counts :=
    map (fun col => (col, count_true (duplicated df [col]))) all_columns in
  let len := Z.of_nat (index_len df) in
  mkDuplicateSummary
    dup_count
    (if (len =? 0)%Z then of_Z 0
     else py_round 2 (fmul (fdiv (of_Z dup_count) (of_Z len)) (of_Z 100)))
    len
    (len - dup_count)%Z
    dup_subset_counts.

Definition data_quality_score (df : DataFrame) : QualityScore F :=
  let len := Z.of_nat (index_len df) in
  let completeness :=
    fmul (fsub (of_Z 1) (fdiv (of_Z (isna_count df)) (of_Z (Z.of_nat (size df)))))
         (of_Z 100) in
  let dups := count_true (duplicated df (map name (columns df))) in
  let uniqueness :=
    if (len =? 0)%Z then of_Z 100
    else fmul (fdiv (of_Z (len - dups)) (of_Z len)) (of_Z 100) in
  mkQualityScore
    (np_round 2 completeness)
    (* [round(100, 2)] of the integer 100 is 100 *)
    (if (len =? 0)%Z then uniqueness else np_round 2 uniqueness)
    (np_round 2 (fdiv (fadd completeness uniqueness) (of_Z 2))).

(** [df[col].dropna()] of a number column, as floats. *)
Definition dropna_float (l : list cell) : list F :=
  flat_map (fun c => match to_float c with Some x => [x] | None => [] end) l.

Fixpoint finsert (x : F) (l : list F) : list F :=
  match l with
  | [] => [x]
  | y :: l' => if fleb x y then x :: l else y :: finsert x l'
  end.

Definition fsort (l : list F) : list F := fold_right finsert [] l.

(** numpy's linear interpolation between two neighbouring order
    statistics. *)
Definition lerp (a b t : F) : F :=
  let diff_b_a := fsub b a in
  if fleb (of_Q 0.5) t then fsub b (fmul diff_b_a (fsub (of_Z 1) t))
  else fadd a (fmul diff_b_a t).

(** [series.quantile(q)] with the default linear interpolation: the
    virtual index [(n - 1) * q] is split into its floor and its fraction
    (computed exactly here, as the float product is for the quartiles). *)
Definition quantile (l : list F) (q : Q) : F :=
  let arr := fsort l in
  let n := Z.of_nat (length l) in
  let virtual_index := (inject_Z (n - 1) * q)%Q in
  let previous := Qfloor virtual_index in
  let next := Z.min (previous + 1) (n - 1) in
  let gamma := Qred (virtual_index - inject_Z previous)%Q in
  lerp (nth (Z.to_nat previous) arr fnan) (nth (Z.to_nat next) arr fnan) (of_Q gamma).

(** [series.std()]: the sample standard deviation. *)
Definition std (l : list F) : F :=
  let m := mean l in
  fsqrt (fdiv (fsum (map (fun x => fmul (fsub x m) (fsub x m)) l))
              (of_Z (Z.of_nat (length l) - 1))).

Definition outlier_bounds (method : string) (series : list F) : F * F :=
  if String.eqb method "iqr" then
    let q1 := quantile series 0.25 in
    let q3 := quantile series 0.75 in
    let iqr := fsub q3 q1 in
    (fsub q1 (fmul (of_Q 1.5) iqr), fadd q3 (fmul (of_Q 1.5) iqr))
  else
    let m := mean series in
    let sd := std series in
    (fsub m (fmul (of_Z 3) sd), fadd m (fmul (of_Z 3) sd)).

(** [series[(series < lower) | (series > upper)]] *)
Definition outliers (series : list F) (lower upper : F) : list F :=
  filter (fun x => fltb x lower || fltb upper x) series.

Definition outlier_stats (method : string) (series : list F) : OutlierStats F :=
  let (lower, upper) := outlier_bounds method series in
  let found := outliers series lower upper in
  mkOutlierStats
    (Z.of_nat (length found))
    (py_round 2 (fmul (fdiv (of_Z (Z.of_nat (length found)))
                            (of_Z (Z.of_nat (length series))))
                      (of_Z 100)))
    (py_round 4 lower)
    (py_round 4 upper).

Definition outlier_detection (df : DataFrame) (method : string)
  : list (string * OutlierStats F) :=
  flat_map
    (fun col =>
       let series := dropna_float (values (getitem df col)) in
       if (length series =? 0)%nat then []
       else [(col, outlier_stats method series)])
    (filter (fun col => is_number_dtype (dtype (getitem df col)))
            (map name (columns df))).
End Cleaning.

(** ** data_loader.py *)

(** A [pathlib.Path]: its components, the last one being the file name. *)
Record Path : Type := mkPath { parts : list string }.

Definition path_name (p : Path) : string := last (parts p) EmptyString.

(** [str(path)] *)
Definition path_str (p : Path) : string := String.concat "/" (parts p).

(** [name.rfind(".")], counting positions from [i]. *)
Fixpoint rfind_dot (s : string) (i : nat) : option nat :=
  match s with
  | EmptyString => None
  | String c s' =>
      match rfind_dot s' (S i) with
      | Some j => Some j
      | None => if Ascii.eqb c "."%char then Some i else None
      end
  end.

(** [Path.suffix]: the last dot of the name and what follows it, unless the
    dot opens or closes the name. *)
Definition suffix (p : Path) : string :=
  let nm := path_name p in
  match rfind_dot nm 0 with
  | Some i =>
      if (0 <? i)%nat && (i <? String.length nm - 1)%nat
      then String.substring i (String.length nm - i) nm
      else EmptyString
  | None => EmptyString
  end.

Definition ascii_lower (c : ascii) : ascii :=
  let n := nat_of_ascii c in
  if (65 <=? n)%nat && (n <=? 90)%nat then ascii_of_nat (n + 32) else c.

(** [str.lower()] on ASCII text. *)
Fixpoint lower (s : string) : string :=
  match s with
  | EmptyString => EmptyString
  | String c s' => String (ascii_lower c) (lower s')
  end.

Inductive exn : Type :=
| FileNotFoundError (msg : string)
| ValueError (msg : string)
| OtherError (msg : string).

(** What [load_data] calls and does not define: the file system and the
    format readers of pandas and [json].  A reader returns a frame or raises. *)
Record Environment : Type := mkEnvironment {
  path_exists : Path -> bool;
  read_csv : Path -> string -> string -> exn + DataFrame;   (* path, encoding, sep *)
  read_excel : Path -> option string -> exn + DataFrame;    (* path, sheet ([None]: sheet 0) *)
  read_json : Path -> string -> exn + DataFrame;            (* json.load, json_normalize *)
  read_json_lines : Path -> string -> exn + DataFrame;      (* json.loads per line *)
  read_parquet : Path -> exn + DataFrame
}.

Definition string_in (x : string) (l : list string) : bool :=
  existsb (String.eqb x) l.

Definition recognized_suffixes : list string :=
  [".csv"; ".tsv"; ".txt"; ".xlsx"; ".xls"; ".json"; ".jsonl"; ".parquet"]%string.

(** The tab character. *)
Definition tab : string := String "009"%char EmptyString.

(** [sheet_name or 0]: without a name, or with the empty name, the first
    sheet is read. *)
Definition sheet_or_first (sheet_name : option string) : option string :=
  match sheet_name with
  | Some s => if String.eqb s "" then None else Some s
  | None => None
  end.

Definition tag (file_type : string) (r : exn + DataFrame) : exn + DataFrame * string :=
  match r with
  | inl e => inl e
  | inr df => inr (df, file_type)
  end.

Definition load_data (env : Environment) (file_path : Path)
    (encoding : string) (sheet_name : option string) : exn + DataFrame * string :=
  if negb (path_exists env file_path)
  then inl (FileNotFoundError ("File not found: " ++ path_str file_path))
  else
    let sfx := lower (suffix file_path) in
    if string_in sfx [".csv"; ".tsv"; ".txt"]%string then
      let sep := if String.eqb sfx ".tsv" then tab else ","%string in
      tag "csv" (read_csv env file_path encoding sep)
    else if string_in sfx [".xlsx"; ".xls"]%string then
      tag "excel" (read_excel env file_path (sheet_or_first sheet_name))
    else if string_in sfx [".json"; ".jsonl"]%string then
      tag "json" (if String.eqb sfx ".jsonl"
                  then read_json_lines env file_path encoding
                  else read_json env file_path encoding)
    else if String.eqb sfx ".parquet" then
      tag "parquet" (read_parquet env file_path)
    else inl (ValueError ("Unsupported file type: " ++ sfx
                          ++ ". Use CSV, Excel, JSON, or Parquet.")).

(** ** main.py: the run as the trace of its effects *)

Inductive event : Type :=
| LogInfo (msg : string)
| LogWarning (msg : string)
| LogError (msg : string)
| BuildReport (df : DataFrame)       (* every analysis step and chart *)
| WriteReport (file : string)
| ProfileReports.

Record Run : Type := mkRun {
  events : list event;
  exit_code : Z
}.

(** [main()], from the parsed arguments on.  [sys.exit(1)] and an exception
    nobody catches both end the process with status 1. *)
Definition main (env : Environment) (input : Path) (profile : bool) : Run :=
  let started := [LogInfo "Starting Insight Mapping EDA Engine"] in
  match load_data env input "utf-8" None with
  | inl (FileNotFoundError _) =>
      mkRun (started ++ [LogError "File not found"]) 1
  | inl (ValueError e) =>
      mkRun (started ++ [LogError ("Unsupported file format: " ++ e)]) 1
  | inl (OtherError _) =>
      mkRun started 1
  | inr (df, file_type) =>
      mkRun (started
               ++ [LogInfo ("Loaded dataset: " ++ file_type);
                   BuildReport df;
                   WriteReport "report.json";
                   WriteReport "report.html";
                   LogInfo "JSON report saved";
                   LogInfo "HTML report saved"]
               ++ (if profile then [ProfileReports] else [])
               ++ [LogInfo "Insight Mapping EDA complete"])
            0
  end.

(** ** Sample inputs *)

(** A boolean column, and the table that holds only it. *)
Definition flag : Series :=
  mkSeries "flag" BoolDtype [Some (Bln true); Some (Bln false)].

Definition flag_table : DataFrame := mkFrame 2 [flag].

(** A file system without files, whose readers are never reached. *)
Definition no_files : Environment :=
  mkEnvironment (fun _ => false)
    (fun _ _ _ => inl (OtherError "unreachable"))
    (fun _ _ => inl (OtherError "unreachable"))
    (fun _ _ => inl (OtherError "unreachable"))
    (fun _ _ => inl (OtherError "unreachable"))
    (fun _ => inl (OtherError "unreachable")).

(** A file system where every path exists and every reader returns the
    two-row table [flag_table]. *)
Definition all_files : Environment :=
  mkEnvironment (fun _ => true)
    (fun _ _ _ => inr flag_table)
    (fun _ _ => inr flag_table)
    (fun _ _ => inr flag_table)
    (fun _ _ => inr flag_table)
    (fun _ => inr flag_table).

Definition missing_xyz : Path := mkPath ["data"; "missing.xyz"]%string.
Definition sales_csv : Path := mkPath ["data"; "Sales.CSV"]%string.

(** A table with one row and one column, nothing missing; and a table with
    a header and no rows. *)
Definition one_cell : DataFrame :=
  mkFrame 1 [mkSeries "x" Int64 [Some (Num 7)]].

Definition header_only : DataFrame :=
  mkFrame 0 [mkSeries "x" Int64 []].

(** The readings 1, 2, 3, 4, 5, 100 next to a column that is entirely
    missing and a boolean column. *)
Definition readings : DataFrame :=
  mkFrame 6
    [mkSeries "x" Int64 (map (fun z => Some (Num (inject_Z z))) [1; 2; 3; 4; 5; 100]%Z);
     mkSeries "y" Float64 [None; None; None; None; None; None];
     mkSeries "b" BoolDtype (map (fun b => Some (Bln b)) [true; false; true; true; false; true])].


(** Two text columns whose joint frequencies equal the expected ones. *)
Definition coin : list cell := map (fun s => Some (Str s)) ["h"; "h"; "t"; "t"]%string.
Definition side : list cell := map (fun s => Some (Str s)) ["l"; "r"; "l"; "r"]%string.

(** Twelve answers in two text columns; their contingency table is
    [[1; 1; 3]; [2; 4; 1]]. *)
Definition survey : DataFrame :=
  mkFrame 12
    [mkSeries "g" ObjectDtype
       (map (fun s => Some (Str s))
            ["a"; "a"; "a"; "a"; "a"; "b"; "b"; "b"; "b"; "b"; "b"; "b"]%string);
     mkSeries "h" ObjectDtype
       (map (fun s => Some (Str s))
            ["p"; "q"; "r"; "r"; "r"; "p"; "p"; "q"; "q"; "q"; "q"; "r"]%string)].


(** A table of counts in which every value pair occurs once. *)
Definition identity_table : table := [[1; 0]; [0; 1]]%Z.

(** Three rows of which the last repeats the first. *)
Definition repeated_table : DataFrame :=
  mkFrame 3
    [mkSeries "a" Int64 [Some (Num 1); Some (Num 1); Some (Num 1)];
     mkSeries "b" ObjectDtype [Some (Str "x"); Some (Str "y"); Some (Str "x")]].

(** ** cleaning_insights.py: the summary of missing values *)

(** [str(dtype)] *)
Definition dtype_name (d : Dtype) : string :=
  match d with
  | Int64 => "int64"
  | UInt64 => "uint64"
  | Float64 => "float64"
  | BoolDtype => "bool"
  | ObjectDtype => "object"
  | StringDtype => "string"
  | Category => "category"
  | Datetime64 => "datetime64[ns]"
  end.

(** One row of the summary frame; its index label is the column's label. *)
Record MissingRow (F : Type) : Type := mkMissingRow {
  column : string;
  missing_count : Z;
  missing_percent : F;
  dtype_str : string
}.

(** [df.isna().sum()] at one column *)
Definition isna_sum (s : Series) : Z :=
  Z.of_nat (length (filter (fun c => cell_eqb c None) (values s))).

Section MissingValues.
Context {F : Type} `{Arith F} `{Rounding F}.

Definition isnan (x : F) : bool := negb (feqb x x).

(** The order of [sort_values(ascending=False)]: larger keys first, NaN
    keys last. *)
Definition sorts_before (x y : F) : bool := isnan y || fleb y x.

Fixpoint insert_desc (r : MissingRow F) (l : list (MissingRow F)) : list (MissingRow F) :=
  match l with
  | [] => [r]
  | r' :: l' =>
      if sorts_before (missing_percent r) (missing_percent r')
      then r :: l
      else r' :: insert_desc r l'
  end.

(** [summary.sort_values(by="missing_percent", ascending=False)].  Rows
    with equal keys are kept in their original order here; pandas promises
    no order for them (NaN keys apart, which it appends in their original
    order). *)
Definition sort_values_desc (l : list (MissingRow F)) : list (MissingRow F) :=
  fold_right insert_desc [] l.

Definition missing_row (df : DataFrame) (s : Series) : MissingRow F :=
  let total_missing := isna_sum s in
  let percent_missing :=
    fmul (fdiv (of_Z total_missing) (of_Z (Z.of_nat (index_len df)))) (of_Z 100) in
  mkMissingRow (name s) total_missing (np_round 2 percent_missing)
               (dtype_name (dtype s)).

Definition missing_value_summary (df : DataFrame) : list (MissingRow F) :=
  sort_values_desc (map (missing_row df) (columns df)).

End MissingValues.

(** A file system where every path exists and no reader can parse its
    file. *)
Definition unreadable_files : Environment :=
  mkEnvironment (fun _ => true)
    (fun _ _ _ => inl (ValueError "No columns to parse from file"))
    (fun _ _ => inl (ValueError "Excel file format cannot be determined"))
    (fun _ _ => inl (ValueError "Expecting value: line 1 column 1 (char 0)"))
    (fun _ _ => inl (ValueError "Expecting value: line 1 column 1 (char 0)"))
    (fun _ => inl (OtherError "Parquet magic bytes not found")).


(* ================================================================== *)
(** * Part II.  The vocabulary of the claims                           *)
(* ================================================================== *)

(** The notions the specification uses to state its claims, and the
    auxiliary quantities of the proofs. *)

(** ** Classifier, loader and cleaning diagnostics *)

(** The claim of C5 as the specification words it. *)
Definition numeric_iff_int_or_float (s : Series) : Prop :=
  is_numeric s = true <->
  (dtype s = Int64 \/ dtype s = UInt64 \/ dtype s = Float64).

Definition numeric_never_categorical (s : Series) (max_unique : nat) : Prop :=
  is_numeric s = true -> is_categorical s max_unique = false.

Definition recognized (p : Path) : bool :=
  string_in (lower (suffix p)) recognized_suffixes.

(** The run stopped with a non-zero status before the analysis and before
    any report file. *)
Definition stopped_before_analysis (r : Run) : Prop :=
  exit_code r <> 0%Z /\
  (forall df, ~ In (BuildReport df) (events r)) /\
  (forall f, ~ In (WriteReport f) (events r)).

(** The calls to the format readers that [load_data] can make for a path. *)
Definition reader_calls (env : Environment) (p : Path) (encoding : string)
    (sheet_name : option string) : list (exn + DataFrame * string) :=
  [tag "csv" (read_csv env p encoding ","%string);
   tag "csv" (read_csv env p encoding tab);
   tag "excel" (read_excel env p (sheet_or_first sheet_name));
   tag "json" (read_json env p encoding);
   tag "json" (read_json_lines env p encoding);
   tag "parquet" (read_parquet env p)].

(** Row [i] repeats an earlier row. *)
Definition repeats_earlier (rs : list (list cell)) (i : nat) : bool :=
  existsb (fun j => row_eqb (nth i rs []) (nth j rs [])) (seq 0 i).

(** The number of rows that repeat an earlier row. *)
Definition duplicate_count (rs : list (list cell)) : nat :=
  length (filter (repeats_earlier rs) (seq 0 (length rs))).




(** ** Contingency tables *)

(** The table whose cell in row [a] and column [b] is [f a b]. *)
Definition grid {A B : Type} (f : A -> B -> Z) (la : list A) (lb : list B) : table :=
  map (fun a => map (fun b => f a b) lb) la.

(** Sum of [f] over a list of indices. *)
Definition zsum_over {A : Type} (l : list A) (f : A -> Z) : Z := zsum (map f l).

(** Every row has the width of the table. *)
Definition rectangular (t : table) : Prop :=
  Forall (fun row => length row = ncols t) t.

Definition cell_at (t : table) (i j : nat) : Z := nth j (nth i t []) 0%Z.

Definition nonnegative (t : table) : Prop :=
  Forall (Forall (fun o => (0 <= o)%Z)) t.

(** One term of the sum, in either branch of [expected]. *)
Definition chi2_term {F : Type} `{Arith F} (tot ri cj o : Z) : F :=
  if (tot =? 0)%Z then chi2_cell0 o else chi2_cell tot ri cj o.

(** ** The statistic and Cramer's V over the real numbers *)

Local Open Scope R_scope.

Definition Rsum (l : list R) : R := fold_right Rplus 0 l.

Definition Rsum_over {X : Type} (l : list X) (f : X -> R) : R := Rsum (map f l).

(** The value of one term: a cell whose expected frequency vanishes gives
    [0 / 0], which [nan_to_num] turns into 0, unless the observed count
    differs from the expected one, when the quotient is infinite and
    [nan_to_num] puts the largest float in its place. *)
Definition term_real (tot ri cj o : Z) : R :=
  if (tot =? 0)%Z then (if (o =? 0)%Z then 0 else real_max)
  else
    let e := IZR (ri * cj) / IZR tot in
    let d := IZR o - e in
    if Reqb e 0 then (if Reqb (d * d) 0 then 0 else real_max)
    else d * d / e.

(** The statistic of a grid as a real number. *)
Definition chi2_real {X Y : Type} (f : X -> Y -> Z) (la : list X) (lb : list Y) : R :=
  if (length la * length lb =? 0)%nat then 0
  else
    let tot := zsum_over la (fun a => zsum_over lb (f a)) in
    Rsum_over la (fun a =>
      Rsum_over lb (fun b =>
        term_real tot (zsum_over lb (f a)) (zsum_over la (fun a' => f a' b)) (f a b))).

(** The finite value of an extended real (0 for the special values). *)
Definition xval (x : xreal) : R :=
  match x with
  | Fin a => a
  | _ => 0
  end.

Definition finite (x : xreal) : Prop := x = Fin (xval x).

(** Cramer's V as the specification writes it, from the chi-squared
    statistic [chi2], the grand total [n] and the shape [r] by [k]. *)
Definition cramers_v_formula (chi2 : R) (n r k : Z) : R :=
  let phi2 := chi2 / IZR n in
  let phi2corr :=
    if (n <=? 1)%Z then 0
    else Rmax 0 (phi2 - IZR (k - 1) * IZR (r - 1) / IZR (n - 1)) in
  let rcorr := if (n <=? 1)%Z then 0 else IZR r - IZR (r - 1) ^ 2 / IZR (n - 1) in
  let kcorr := if (n <=? 1)%Z then 0 else IZR k - IZR (k - 1) ^ 2 / IZR (n - 1) in
  let denom := Rmin (kcorr - 1) (rcorr - 1) in
  if (n =? 0)%Z || Rleb denom 0 then 0
  else sqrt (phi2corr / denom).

Definition row_total (t : table) (i : nat) : Z :=
  zsum_over (seq 0 (ncols t)) (cell_at t i).

Definition col_total (t : table) (j : nat) : Z :=
  zsum_over (seq 0 (nrows t)) (fun i => cell_at t i j).

(** expected = (row total * column total) / grand total *)
Definition expected (t : table) (i j : nat) : R :=
  IZR (row_total t i * col_total t j) / IZR (total t).

(** The sum over all cells of (observed - expected)^2 / expected, a cell
    with expected frequency 0 contributing 0; and 0 when the grand total
    is 0. *)
Definition chi2_spec (t : table) : R :=
  if (total t =? 0)%Z then 0
  else
    Rsum_over (seq 0 (nrows t)) (fun i =>
      Rsum_over (seq 0 (ncols t)) (fun j =>
        if Reqb (expected t i j) 0 then 0
        else (IZR (cell_at t i j) - expected t i j) ^ 2 / expected t i j)).

(** Observed and expected frequencies agree in every cell. *)
Definition independent (t : table) : Prop :=
  forall i j, (i < nrows t)%nat -> (j < ncols t)%nat ->
    IZR (cell_at t i j) = expected t i j.

(** ** Columns of numbers *)

(** The number a cell of a numeric column stands for. *)
Definition cell_real (c : cell) : option R :=
  match c with
  | Some (Num q) => Some (IZR (Qnum q) / IZR (Zpos (Qden q)))
  | Some (Bln b) => Some (if b then 1 else 0)
  | _ => None
  end.

Definition real_values (xs : list cell) : list R :=
  flat_map (fun c => match cell_real c with Some x => [x] | None => [] end) xs.

(** The column holds two different numbers. *)
Definition varies (xs : list cell) : Prop :=
  exists x y, In x (real_values xs) /\ In y (real_values xs) /\ x <> y.

(** Sum of the squared deviations from the mean. *)
Definition sum_sq (l : list R) : R :=
  let m := Rsum l / IZR (Z.of_nat (length l)) in
  Rsum_over l (fun x => (x - m) * (x - m)).

Local Close Scope R_scope.


(** ** Correlation matrices *)


(** The entry in row [i] and column [j] ([d] outside the matrix). *)
Definition entry {F : Type} (d : F) (m : Matrix F) (i j : nat) : F :=
  nth j (nth i (entries m) []) d.



(** ** Loader: the kinds of file *)

Definition excel_suffix (p : Path) : bool :=
  string_in (lower (suffix p)) [".xlsx"; ".xls"]%string.

Definition text_suffix (p : Path) : bool :=
  string_in (lower (suffix p)) [".csv"; ".tsv"; ".txt"; ".json"; ".jsonl"]%string.

(** ** Pearson's coefficient over the reals *)

Local Open Scope R_scope.

(** The rows in which both columns hold a number. *)
Definition real_pairs (xs ys : list cell) : list (R * R) :=
  flat_map (fun p : cell * cell =>
              match cell_real (fst p), cell_real (snd p) with
              | Some x, Some y => [(x, y)]
              | _, _ => []
              end)
           (combine xs ys).

(** The sum of the products of the deviations of [f] and [g] from their
    means. *)
Definition co_moment (ps : list (R * R)) (f g : R * R -> R) : R :=
  let n := IZR (Z.of_nat (length ps)) in
  let mf := Rsum_over ps f / n in
  let mg := Rsum_over ps g / n in
  Rsum_over ps (fun p => (f p - mf) * (g p - mg)).

Local Close Scope R_scope.

(** ** Quartiles over the reals *)

Local Open Scope R_scope.

Fixpoint Rinsert (x : R) (l : list R) : list R :=
  match l with
  | [] => [x]
  | y :: l' => if Rleb x y then x :: l else y :: Rinsert x l'
  end.

(** The values in ascending order. *)
Definition Rsort (l : list R) : list R := fold_right Rinsert [] l.

(** The quantile by linear interpolation between the two order statistics
    around the virtual index [(n - 1) * q]. *)
Definition quantile_real (l : list R) (q : Q) : R :=
  let s := Rsort l in
  let m := (Z.of_nat (length l) - 1)%Z in
  let k := Qfloor (inject_Z m * q) in
  let a := nth (Z.to_nat k) s 0 in
  let b := nth (Z.to_nat (Z.min (k + 1) m)) s 0 in
  a + (b - a) * (Q2R (inject_Z m * q) - IZR k).

Local Close Scope R_scope.

(** ** Perfect association *)

(** The square table with the counts [c] on its diagonal and zeros
    elsewhere: the contingency table of two columns whose values
    correspond one to one. *)
Definition diagonal_cell (c : list Z) (i j : nat) : Z :=
  if (i =? j)%nat then nth i c 0%Z else 0%Z.


(* ================================================================== *)
(** * Part III.  Properties                                            *)
(* ================================================================== *)

(** ** utils.py *)

Lemma getitem_in (df : DataFrame) (s : Series) :
  NoDup (map name (columns df)) -> In s (columns df) -> getitem df (name s) = s.
Proof.
  unfold getitem. induction (columns df) as [|c cs IH]; simpl; intros Hnd Hin.
  - contradiction.
  - inversion Hnd as [|? ? Hnotin Hnd']; subst.
    destruct Hin as [-> | Hin].
    + now rewrite String.eqb_refl.
    + destruct (String.eqb (name c) (name s)) eqn:E.
      * apply String.eqb_eq in E. exfalso. apply Hnotin. rewrite E.
        now apply in_map.
      * now apply IH.
Qed.

(** C5, counterexample: a boolean column is classified numeric, although its
    dtype is neither an integer nor a floating-point type, and it is
    classified categorical as well. *)
Lemma classifier_bool_counterexample :
  ~ numeric_iff_int_or_float flag /\
  ~ numeric_never_categorical flag default_max_unique.
Proof.
  split.
  - intros [H _]. destruct (H eq_refl) as [E | [E | E]]; discriminate E.
  - intros H. specialize (H eq_refl). discriminate H.
Qed.

(** C5, amended: a column is numeric exactly when its dtype is an integer,
    floating-point or boolean type; it is categorical exactly when it is
    boolean, object-typed, or has at most [max_unique] distinct non-missing
    values while not being numeric; and the columns that are both are
    exactly the boolean ones. *)
Theorem classifier_rule (s : Series) (max_unique : nat) :
  (is_numeric s = true <->
     (dtype s = Int64 \/ dtype s = UInt64 \/ dtype s = Float64 \/ dtype s = BoolDtype)) /\
  (is_categorical s max_unique = true <->
     (dtype s = BoolDtype \/ dtype s = ObjectDtype \/
      ((nunique s <= max_unique)%nat /\ is_numeric s = false))) /\
  (is_numeric s = true /\ is_categorical s max_unique = true <-> dtype s = BoolDtype).
Proof.
  unfold is_categorical, is_numeric.
  destruct (Nat.leb_spec (nunique s) max_unique) as [Hle | Hgt];
    destruct (dtype s); simpl;
    repeat split; intros;
    repeat match goal with
           | H : _ /\ _ |- _ => destruct H
           | H : _ \/ _ |- _ => destruct H
           end;
    try discriminate; try lia; auto 6.
Qed.

(** ** Boolean columns *)

(** C10, counterexample: in the table whose only column is boolean, the
    column is returned by both selectors, yet the categorical matrix is the
    empty frame, so the column is not one of its labels. *)
Lemma bool_column_counterexample :
  In "flag"%string (get_numeric_columns flag_table) /\
  In "flag"%string (get_categorical_columns flag_table) /\
  ~ In "flag"%string (labels (categorical_correlation (F := float) flag_table)).
Proof.
  repeat split; try (left; reflexivity).
  intros H. exact H.
Qed.

(** C10, amended: a boolean column is returned by [get_numeric_columns] and
    by [get_categorical_columns]; it labels the numeric correlation matrix,
    and it labels the categorical one when the table has at least two
    categorical columns (with fewer, that matrix is empty). *)
Theorem bool_column_in_both (F : Type) (A : Arith F) (df : DataFrame) (s : Series) :
  well_formed df -> In s (columns df) -> dtype s = BoolDtype ->
  In (name s) (get_numeric_columns df) /\
  In (name s) (get_categorical_columns df) /\
  In (name s) (labels (numeric_correlation df)) /\
  ((2 <= length (get_categorical_columns df))%nat ->
     In (name s) (labels (categorical_correlation df))) /\
  ((length (get_categorical_columns df) < 2)%nat ->
     categorical_correlation df = empty_matrix).
Proof.
  intros [Hnd _] Hin Hb.
  assert (Hnum : In (name s) (get_numeric_columns df)).
  { unfold get_numeric_columns. apply filter_In. split.
    - now apply in_map.
    - rewrite getitem_in by assumption. now rewrite Hb. }
  assert (Hcat : In (name s) (get_categorical_columns df)).
  { unfold get_categorical_columns. apply filter_In. split.
    - now apply in_map.
    - rewrite getitem_in by assumption. unfold is_categorical. now rewrite Hb. }
  repeat split; try assumption.
  - unfold numeric_correlation.
    destruct (get_numeric_columns df) eqn:E; [contradiction | exact Hnum].
  - intros Hlen. unfold categorical_correlation.
    destruct (Nat.ltb_spec (length (get_categorical_columns df)) 2); [lia | exact Hcat].
  - intros Hlen. unfold categorical_correlation.
    destruct (Nat.ltb_spec (length (get_categorical_columns df)) 2); [reflexivity | lia].
Qed.

(** Witness for C10: the boolean column of [flag_table]. *)
Lemma bool_column_in_both_witness :
  In "flag"%string (get_numeric_columns flag_table) /\
  In "flag"%string (get_categorical_columns flag_table) /\
  In "flag"%string (labels (numeric_correlation (F := float) flag_table)) /\
  ((2 <= length (get_categorical_columns flag_table))%nat ->
     In "flag"%string (labels (categorical_correlation (F := float) flag_table))) /\
  ((length (get_categorical_columns flag_table) < 2)%nat ->
     categorical_correlation (F := float) flag_table = empty_matrix).
Proof.
  apply (@bool_column_in_both float binary64 flag_table flag).
  - split.
    + simpl. constructor; [intros [] | constructor].
    + repeat constructor.
  - left. reflexivity.
  - reflexivity.
Defined.

(** ** data_loader.py and main.py *)

Lemma load_data_missing (env : Environment) (p : Path) (enc : string) (sh : option string) :
  path_exists env p = false ->
  load_data env p enc sh = inl (FileNotFoundError ("File not found: " ++ path_str p)).
Proof. intros E. unfold load_data. now rewrite E. Qed.

Lemma load_data_unsupported (env : Environment) (p : Path) (enc : string) (sh : option string) :
  path_exists env p = true -> recognized p = false ->
  load_data env p enc sh =
  inl (ValueError ("Unsupported file type: " ++ lower (suffix p)
                   ++ ". Use CSV, Excel, JSON, or Parquet.")).
Proof.
  intros E R. unfold load_data. rewrite E. simpl negb. cbv iota.
  unfold recognized, recognized_suffixes, string_in in R.
  simpl existsb in R.
  repeat (apply orb_false_elim in R; destruct R as [?E0 R]).
  unfold string_in. simpl existsb.
  repeat match goal with H : String.eqb _ _ = false |- _ => rewrite H; clear H end.
  reflexivity.
Qed.

Lemma load_data_supported (env : Environment) (p : Path) (enc : string) (sh : option string) :
  path_exists env p = true -> recognized p = true ->
  In (load_data env p enc sh) (reader_calls env p enc sh).
Proof.
  intros E R. unfold load_data. rewrite E. simpl negb. cbv iota.
  unfold recognized, recognized_suffixes, string_in in R.
  simpl existsb in R. unfold string_in. simpl existsb.
  unfold reader_calls.
  destruct (String.eqb (lower (suffix p)) ".csv") eqn:E1; simpl.
  { apply String.eqb_eq in E1. rewrite E1. simpl. auto. }
  destruct (String.eqb (lower (suffix p)) ".tsv") eqn:E2; simpl.
  { auto. }
  destruct (String.eqb (lower (suffix p)) ".txt") eqn:E3; simpl.
  { auto. }
  destruct (String.eqb (lower (suffix p)) ".xlsx") eqn:E4; simpl.
  { auto. }
  destruct (String.eqb (lower (suffix p)) ".xls") eqn:E5; simpl.
  { auto. }
  destruct (String.eqb (lower (suffix p)) ".json") eqn:E6; simpl.
  { destruct (String.eqb (lower (suffix p)) ".jsonl"); auto 6. }
  destruct (String.eqb (lower (suffix p)) ".jsonl") eqn:E7; simpl.
  { auto 6. }
  destruct (String.eqb (lower (suffix p)) ".parquet") eqn:E8; simpl.
  { auto 7. }
  simpl in R. discriminate R.
Qed.

Lemma main_stops_on_error (env : Environment) (p : Path) (profile : bool) (e : exn) :
  load_data env p "utf-8" None = inl e ->
  stopped_before_analysis (main env p profile).
Proof.
  intros E. unfold main. rewrite E.
  destruct e; (split; [simpl; lia | split; intros x; simpl; intuition discriminate]).
Qed.

(** C9, counterexample: a path that does not exist and whose extension is
    not recognized fails with the file-not-found error, not with the
    unsupported-format error: existence is checked first. *)
Lemma load_missing_unrecognized_counterexample :
  recognized missing_xyz = false /\
  load_data no_files missing_xyz "utf-8" None
    = inl (FileNotFoundError "File not found: data/missing.xyz") /\
  (forall msg, load_data no_files missing_xyz "utf-8" None <> inl (ValueError msg)).
Proof.
  repeat split. intros msg H. discriminate H.
Qed.

(** C9, amended: loading fails with the file-not-found error when the file
    does not exist, and with the unsupported-format error when the file
    exists and its extension is not recognized; in both cases the run ends
    with a non-zero status before any analysis step and before any report
    is written.  For an existing file with a recognized extension
    [load_data] raises neither of its two errors: its outcome is the outcome
    of the format reader it calls. *)
Theorem load_errors (env : Environment) (p : Path) (enc : string)
    (sh : option string) (profile : bool) :
  (path_exists env p = false ->
     load_data env p enc sh = inl (FileNotFoundError ("File not found: " ++ path_str p))) /\
  (path_exists env p = true -> recognized p = false ->
     load_data env p enc sh =
     inl (ValueError ("Unsupported file type: " ++ lower (suffix p)
                      ++ ". Use CSV, Excel, JSON, or Parquet."))) /\
  (path_exists env p = false \/ recognized p = false ->
     stopped_before_analysis (main env p profile)) /\
  (path_exists env p = true -> recognized p = true ->
     In (load_data env p enc sh) (reader_calls env p enc sh)).
Proof.
  split; [apply load_data_missing |].
  split; [apply load_data_unsupported |].
  split; [| apply load_data_supported].
  intros Hfail.
  destruct (path_exists env p) eqn:E.
  - destruct Hfail as [Hfail | Hfail]; [discriminate Hfail |].
    eapply main_stops_on_error. now apply load_data_unsupported.
  - eapply main_stops_on_error. now apply load_data_missing.
Qed.

(** An existing [Sales.CSV] is read as comma-separated text, and the run
    goes on to the analysis and writes both reports. *)
Example load_sales_csv :
  load_data all_files sales_csv "utf-8" None = inr (flag_table, "csv"%string) /\
  exit_code (main all_files sales_csv false) = 0%Z /\
  In (BuildReport flag_table) (events (main all_files sales_csv false)) /\
  In (WriteReport "report.json") (events (main all_files sales_csv false)).
Proof. repeat split; simpl; auto 8. Qed.

(** ** cleaning_insights.py: duplicate rows *)

Lemma existsb_ext_in {A : Type} (f g : A -> bool) (l : list A) :
  (forall x, In x l -> f x = g x) -> existsb f l = existsb g l.
Proof.
  induction l as [|a l IH]; simpl; intros Hfg; [reflexivity |].
  rewrite Hfg by now left. f_equal. apply IH. intros x Hx. apply Hfg. now right.
Qed.

Lemma existsb_rev {A : Type} (f : A -> bool) (l : list A) :
  existsb f (rev l) = existsb f l.
Proof.
  induction l as [|a l IH]; simpl; [reflexivity |].
  rewrite existsb_app, IH. simpl. rewrite orb_false_r. apply orb_comm.
Qed.

Lemma existsb_over_map {A B : Type} (f : B -> bool) (g : A -> B) (l : list A) :
  existsb f (map g l) = existsb (fun x => f (g x)) l.
Proof. induction l as [|a l IH]; simpl; [reflexivity | now rewrite IH]. Qed.

Lemma existsb_by_index {A : Type} (f : A -> bool) (d : A) (l : list A) :
  existsb (fun j => f (nth j l d)) (seq 0 (length l)) = existsb f l.
Proof.
  induction l as [|a l IH]; simpl; [reflexivity |].
  f_equal. rewrite <- seq_shift, existsb_over_map. exact IH.
Qed.

Lemma duplicated_from_spec (rs pre : list (list cell)) :
  duplicated_from (rev pre) rs
  = map (repeats_earlier (pre ++ rs)) (seq (length pre) (length rs)).
Proof.
  revert pre. induction rs as [|r rs IH]; intros pre; simpl; [reflexivity |].
  f_equal.
  - unfold repeats_earlier. rewrite nth_middle, existsb_rev.
    rewrite <- (existsb_by_index (row_eqb r) [] pre).
    apply existsb_ext_in. intros j Hj. apply in_seq in Hj.
    rewrite app_nth1 by lia. reflexivity.
  - specialize (IH (pre ++ [r])).
    rewrite rev_app_distr in IH. simpl in IH. rewrite IH.
    rewrite <- app_assoc. simpl. rewrite length_app. simpl.
    now rewrite Nat.add_1_r.
Qed.

Lemma count_true_map {A : Type} (f : A -> bool) (l : list A) :
  count_true (map f l) = Z.of_nat (length (filter f l)).
Proof.
  unfold count_true. f_equal.
  induction l as [|a l IH]; simpl; [reflexivity |].
  destruct (f a); simpl; now rewrite IH.
Qed.

Lemma duplicated_count (df : DataFrame) (subset : list string) :
  empty df = false ->
  count_true (duplicated df subset) = Z.of_nat (duplicate_count (rows df subset)).
Proof.
  intros E. unfold duplicated. rewrite E.
  change (duplicated_from [] (rows df subset))
    with (duplicated_from (rev []) (rows df subset)).
  rewrite duplicated_from_spec. simpl.
  apply count_true_map.
Qed.


(** ** Exact arithmetic: the operations on finite values *)

Local Open Scope R_scope.

Lemma Reqb_true (a b : R) : a = b -> Reqb a b = true.
Proof. intros E. unfold Reqb. destruct (Req_dec_T a b); [reflexivity | contradiction]. Qed.

Lemma Reqb_false (a b : R) : a <> b -> Reqb a b = false.
Proof. intros E. unfold Reqb. destruct (Req_dec_T a b); [contradiction | reflexivity]. Qed.

Lemma Rltb_true (a b : R) : a < b -> Rltb a b = true.
Proof. intros E. unfold Rltb. destruct (Rlt_dec a b); [reflexivity | contradiction]. Qed.

Lemma Rltb_false (a b : R) : b <= a -> Rltb a b = false.
Proof. intros E. unfold Rltb. destruct (Rlt_dec a b); [lra | reflexivity]. Qed.

Lemma Rleb_true (a b : R) : a <= b -> Rleb a b = true.
Proof. intros E. unfold Rleb. destruct (Rle_dec a b); [reflexivity | contradiction]. Qed.


Lemma xadd_fin (a b : R) : xadd (Fin a) (Fin b) = Fin (a + b).
Proof. reflexivity. Qed.

Lemma xsub_fin (a b : R) : xsub (Fin a) (Fin b) = Fin (a - b).
Proof. reflexivity. Qed.

Lemma xmul_fin (a b : R) : xmul (Fin a) (Fin b) = Fin (a * b).
Proof. reflexivity. Qed.

Lemma xltb_fin (a b : R) : xltb (Fin a) (Fin b) = Rltb a b.
Proof. reflexivity. Qed.

Lemma xleb_fin (a b : R) : xleb (Fin a) (Fin b) = Rleb a b.
Proof. reflexivity. Qed.

Lemma xeqb_fin (a b : R) : xeqb (Fin a) (Fin b) = Reqb a b.
Proof. reflexivity. Qed.

Lemma xnan_to_num_fin (a : R) : xnan_to_num (Fin a) = Fin a.
Proof. reflexivity. Qed.

Create Rewrite HintDb xreal.
#[local] Hint Rewrite xadd_fin xsub_fin xmul_fin xltb_fin xleb_fin xeqb_fin
  xnan_to_num_fin : xreal.

Arguments xadd : simpl never.
Arguments xsub : simpl never.
Arguments xmul : simpl never.
Arguments xdiv : simpl never.
Arguments xsqrt : simpl never.
Arguments xltb : simpl never.
Arguments xleb : simpl never.
Arguments xeqb : simpl never.
Arguments xnan_to_num : simpl never.
Arguments xround : simpl never.

(** Expose the operations of the exact instance without unfolding them. *)
Ltac exact_ops :=
  cbn [of_Z fadd fsub fmul fdiv fsqrt fltb fleb feqb nan_to_num exact
       py_round np_round exact_rounding].

Lemma xdiv_fin (a b : R) : b <> 0 -> xdiv (Fin a) (Fin b) = Fin (a / b).
Proof. intros E. unfold xdiv. now rewrite Reqb_false. Qed.

Lemma xdiv_zero_zero : xdiv (Fin 0) (Fin 0) = NaN.
Proof. unfold xdiv. now rewrite !Reqb_true. Qed.

Local Close Scope R_scope.

(** ** cleaning_insights.py: the quality score *)


(** On a table with a header and no rows the completeness is the NaN of
    [0 / 0], and it propagates into the overall score; only the uniqueness is
    guarded. *)
Example quality_score_of_header_only :
  data_quality_score (F := xreal) header_only
  = mkQualityScore NaN (Fin 100%R) NaN.
Proof.
  unfold data_quality_score. simpl.
  change (isna_count header_only) with 0%Z.
  rewrite xdiv_zero_zero. reflexivity.
Qed.

Example quality_score_of_header_only_binary64 :
  data_quality_score (F := float) header_only
  = mkQualityScore PrimFloat.nan 100%float PrimFloat.nan.
Proof. vm_compute. reflexivity. Qed.

Lemma size_nonzero (df : DataFrame) :
  size df <> 0%nat -> index_len df <> 0%nat.
Proof. unfold size. intros H E. apply H. rewrite E. reflexivity. Qed.


(** ** cleaning_insights.py: outlier detection *)

Section Outliers.
Context {F : Type} {A : Arith F} {Rd : Rounding F}.

Lemma outlier_detection_in (df : DataFrame) (method col : string) (st : OutlierStats F) :
  In (col, st) (outlier_detection df method) <->
  In col (map name (columns df)) /\
  is_number_dtype (dtype (getitem df col)) = true /\
  dropna_float (values (getitem df col)) <> [] /\
  st = outlier_stats method (dropna_float (values (getitem df col))).
Proof.
  unfold outlier_detection. rewrite in_flat_map. split.
  - intros [c [Hc Hin]]. apply filter_In in Hc. destruct Hc as [Hc Hnum].
    destruct (dropna_float (values (getitem df c))) as [|x l] eqn:E; simpl in Hin.
    + contradiction.
    + destruct Hin as [Hin | []]. inversion Hin; subst.
      rewrite E. repeat split; try assumption. discriminate.
  - intros (Hc & Hnum & Hne & ->). exists col. split.
    + apply filter_In. now split.
    + destruct (dropna_float (values (getitem df col))) as [|x l] eqn:E.
      * contradiction.
      * simpl. now left.
Qed.

End Outliers.


(** ** correlation_analysis.py: tables as grids *)

Lemma zsum_over_cons {A : Type} (a : A) (l : list A) (f : A -> Z) :
  zsum_over (a :: l) f = (f a + zsum_over l f)%Z.
Proof. reflexivity. Qed.



Lemma zsum_over_zero {A : Type} (l : list A) :
  zsum_over l (fun _ => 0%Z) = 0%Z.
Proof. induction l as [|a l IH]; [reflexivity |]. rewrite zsum_over_cons, IH. lia. Qed.


Lemma zsum_over_nonneg {A : Type} (l : list A) (f : A -> Z) :
  (forall a, In a l -> (0 <= f a)%Z) -> (0 <= zsum_over l f)%Z.
Proof.
  induction l as [|a l IH]; intros Hf; [cbn; lia |].
  rewrite zsum_over_cons.
  assert (0 <= f a)%Z by (apply Hf; now left).
  assert (0 <= zsum_over l f)%Z by (apply IH; intros x Hx; apply Hf; now right).
  lia.
Qed.

Lemma zsum_over_ge {A : Type} (l : list A) (f : A -> Z) (a : A) :
  (forall x, In x l -> (0 <= f x)%Z) -> In a l -> (f a <= zsum_over l f)%Z.
Proof.
  induction l as [|x l IH]; intros Hf Hin; [contradiction |].
  rewrite zsum_over_cons.
  assert (0 <= f x)%Z by (apply Hf; now left).
  assert (0 <= zsum_over l f)%Z
    by (apply zsum_over_nonneg; intros y Hy; apply Hf; now right).
  destruct Hin as [-> | Hin]; [lia |].
  assert (f a <= zsum_over l f)%Z by (apply IH; [intros y Hy; apply Hf; now right | exact Hin]).
  lia.
Qed.

(** Shape and marginal sums of a grid. *)
Lemma grid_nrows {A B : Type} (f : A -> B -> Z) (la : list A) (lb : list B) :
  nrows (grid f la lb) = length la.
Proof. unfold nrows, grid. apply length_map. Qed.

Lemma grid_ncols {A B : Type} (f : A -> B -> Z) (la : list A) (lb : list B) :
  la <> [] -> ncols (grid f la lb) = length lb.
Proof.
  destruct la as [|a la]; [contradiction |]. intros _.
  unfold ncols, grid. simpl. apply length_map.
Qed.

Lemma grid_row_sum {A B : Type} (f : A -> B -> Z) (la : list A) (lb : list B) :
  row_sum (grid f la lb) = map (fun a => zsum_over lb (f a)) la.
Proof. unfold row_sum, grid. rewrite map_map. reflexivity. Qed.

Lemma map_by_index {A B : Type} (g : A -> B) (d : A) (l : list A) :
  map (fun j => g (nth j l d)) (seq 0 (length l)) = map g l.
Proof.
  induction l as [|a l IH]; simpl; [reflexivity |].
  f_equal. rewrite <- seq_shift, map_map. exact IH.
Qed.

Lemma list_by_index {A : Type} (d : A) (l : list A) :
  map (fun j => nth j l d) (seq 0 (length l)) = l.
Proof. rewrite (map_by_index (fun x => x)). apply map_id. Qed.

Lemma grid_col_sum {A B : Type} (f : A -> B -> Z) (la : list A) (lb : list B) :
  la <> [] ->
  col_sum (grid f la lb) = map (fun b => zsum_over la (fun a => f a b)) lb.
Proof.
  intros Hne. unfold col_sum. rewrite grid_ncols by exact Hne.
  destruct lb as [|b0 lb0] eqn:Elb; [reflexivity |]. rewrite <- Elb.
  rewrite <- (map_by_index (fun b => zsum_over la (fun a => f a b)) b0 lb).
  apply map_ext_in. intros j Hj. apply in_seq in Hj.
  unfold zsum_over, grid. rewrite map_map. f_equal.
  apply map_ext. intros a.
  rewrite (nth_indep _ 0%Z (f a b0)) by (rewrite length_map; lia).
  apply (map_nth (f a)).
Qed.

Lemma grid_total {A B : Type} (f : A -> B -> Z) (la : list A) (lb : list B) :
  total (grid f la lb) = zsum_over la (fun a => zsum_over lb (f a)).
Proof. unfold total. fold (row_sum (grid f la lb)). now rewrite grid_row_sum. Qed.

Lemma rectangular_grid (t : table) :
  rectangular t ->
  t = grid (cell_at t) (seq 0 (nrows t)) (seq 0 (ncols t)).
Proof.
  intros Hrect. unfold grid, nrows.
  transitivity (map (fun i => nth i t []) (seq 0 (length t)));
    [symmetry; apply list_by_index |].
  apply map_ext_in. intros i Hi. apply in_seq in Hi.
  assert (Hrow : length (nth i t []) = ncols t).
  { unfold rectangular in Hrect. rewrite Forall_forall in Hrect.
    apply Hrect. apply nth_In. lia. }
  transitivity (map (fun j => nth j (nth i t []) 0%Z) (seq 0 (length (nth i t []))));
    [symmetry; apply list_by_index |].
  rewrite Hrow. reflexivity.
Qed.

Lemma nonnegative_cell_at (t : table) (i j : nat) :
  nonnegative t -> (0 <= cell_at t i j)%Z.
Proof.
  intros Hnn. unfold cell_at.
  destruct (Nat.lt_ge_cases i (length t)) as [Hi | Hi].
  - unfold nonnegative in Hnn. rewrite Forall_forall in Hnn.
    specialize (Hnn (nth i t []) (nth_In _ _ Hi)). rewrite Forall_forall in Hnn.
    destruct (Nat.lt_ge_cases j (length (nth i t []))) as [Hj | Hj].
    + apply Hnn. now apply nth_In.
    + rewrite nth_overflow by exact Hj. lia.
  - rewrite (nth_overflow t) by exact Hi. destruct j; simpl; lia.
Qed.

(** ** The chi-squared statistic of a grid, in any arithmetic *)

Section Chi2Grid.
Context {F : Type} {A : Arith F}.

Lemma combine_map_map {X Y Z' : Type} (g : X -> Y) (h : X -> Z') (l : list X) :
  combine (map g l) (map h l) = map (fun x => (g x, h x)) l.
Proof. induction l as [|x l IH]; simpl; [reflexivity | now rewrite IH]. Qed.

Lemma chi2_terms_grid {X Y : Type} (f : X -> Y -> Z) (la : list X) (lb : list Y) :
  la <> [] ->
  chi2_terms (grid f la lb)
  = concat (map (fun a =>
                   map (fun b =>
                          chi2_term (total (grid f la lb))
                                    (zsum_over lb (f a))
                                    (zsum_over la (fun a' => f a' b))
                                    (f a b))
                       lb)
                la).
Proof.
  intros Hne. unfold chi2_terms.
  rewrite grid_row_sum, grid_col_sum by exact Hne.
  set (tot := total (grid f la lb)).
  unfold grid. rewrite combine_map_map, map_map.
  f_equal. apply map_ext. intros a. cbn [fst snd].
  rewrite combine_map_map, map_map. apply map_ext. intros b. reflexivity.
Qed.
End Chi2Grid.

(** ** The chi-squared statistic in exact arithmetic *)

Local Open Scope R_scope.

Lemma Rsum_over_cons {X : Type} (a : X) (l : list X) (f : X -> R) :
  Rsum_over (a :: l) f = f a + Rsum_over l f.
Proof. reflexivity. Qed.

Lemma Rsum_over_nil {X : Type} (f : X -> R) : Rsum_over [] f = 0.
Proof. reflexivity. Qed.

Lemma Rsum_over_ext {X : Type} (l : list X) (f g : X -> R) :
  (forall a, In a l -> f a = g a) -> Rsum_over l f = Rsum_over l g.
Proof.
  induction l as [|a l IH]; intros Hfg; [reflexivity |].
  rewrite !Rsum_over_cons, Hfg by now left.
  f_equal. apply IH. intros x Hx. apply Hfg. now right.
Qed.

Lemma Rsum_over_le {X : Type} (l : list X) (f g : X -> R) :
  (forall a, In a l -> f a <= g a) -> Rsum_over l f <= Rsum_over l g.
Proof.
  induction l as [|a l IH]; intros Hfg; [rewrite !Rsum_over_nil; lra |].
  rewrite !Rsum_over_cons.
  assert (f a <= g a) by (apply Hfg; now left).
  assert (Rsum_over l f <= Rsum_over l g) by (apply IH; intros x Hx; apply Hfg; now right).
  lra.
Qed.

Lemma Rsum_over_add {X : Type} (l : list X) (f g : X -> R) :
  Rsum_over l (fun a => f a + g a) = Rsum_over l f + Rsum_over l g.
Proof.
  induction l as [|a l IH]; [rewrite !Rsum_over_nil; lra |].
  rewrite !Rsum_over_cons, IH. lra.
Qed.

Lemma Rsum_over_scal {X : Type} (l : list X) (c : R) (f : X -> R) :
  Rsum_over l (fun a => c * f a) = c * Rsum_over l f.
Proof.
  induction l as [|a l IH]; [rewrite !Rsum_over_nil; lra |].
  rewrite !Rsum_over_cons, IH. lra.
Qed.

Lemma Rsum_over_const {X : Type} (l : list X) (c : R) :
  Rsum_over l (fun _ => c) = INR (length l) * c.
Proof.
  induction l as [|a l IH]; [rewrite Rsum_over_nil; simpl; lra |].
  rewrite Rsum_over_cons, IH. change (length (a :: l)) with (S (length l)).
  rewrite S_INR. lra.
Qed.


Lemma Rsum_app (l1 l2 : list R) : Rsum (l1 ++ l2) = Rsum l1 + Rsum l2.
Proof.
  induction l1 as [|x l1 IH]; simpl; [lra |]. rewrite IH. lra.
Qed.

Lemma Rsum_concat_map {X : Type} (l : list X) (g : X -> list R) :
  Rsum (concat (map g l)) = Rsum_over l (fun a => Rsum (g a)).
Proof.
  induction l as [|a l IH]; [reflexivity |].
  simpl. rewrite Rsum_app, IH. reflexivity.
Qed.


(** The sum of finite values is the finite sum. *)
Lemma fold_left_xadd_fin (l : list R) (acc : R) :
  fold_left xadd (map Fin l) (Fin acc) = Fin (acc + Rsum l).
Proof.
  revert acc. induction l as [|x l IH]; intros acc; simpl.
  - f_equal. lra.
  - rewrite xadd_fin, IH. f_equal. lra.
Qed.

Lemma fsum_fin (l : list R) : fsum (F := xreal) (map Fin l) = Fin (Rsum l).
Proof.
  unfold fsum. simpl. rewrite fold_left_xadd_fin. f_equal. lra.
Qed.

Lemma xdiv_by_zero (a : R) :
  0 <= a ->
  xnan_to_num (xdiv (Fin a) (Fin 0)) = Fin (if Reqb a 0 then 0 else real_max).
Proof.
  intros Ha. unfold xdiv. rewrite (@Reqb_true 0 0) by reflexivity.
  destruct (Req_dec_T a 0) as [E | E].
  - rewrite !Reqb_true by exact E. reflexivity.
  - rewrite !Reqb_false by exact E. rewrite Rltb_true by lra. reflexivity.
Qed.

Lemma chi2_term_exact (tot ri cj o : Z) :
  chi2_term (F := xreal) tot ri cj o = Fin (term_real tot ri cj o).
Proof.
  unfold chi2_term, term_real.
  destruct (Z.eqb_spec tot 0) as [E | E].
  - unfold chi2_cell0. exact_ops.
    rewrite xdiv_by_zero by (apply IZR_le; nia).
    f_equal. destruct (Z.eqb_spec o 0) as [Eo | Eo].
    + subst o. rewrite Reqb_true; reflexivity.
    + rewrite Reqb_false; [reflexivity |]. apply not_0_IZR. nia.
  - unfold chi2_cell. exact_ops.
    rewrite xdiv_fin by (now apply not_0_IZR).
    autorewrite with xreal.
    set (e := IZR (ri * cj) / IZR tot).
    set (d := IZR o - e).
    destruct (Req_dec_T e 0) as [Ee | Ee].
    + rewrite Ee. rewrite xdiv_by_zero by nra.
      rewrite (@Reqb_true 0 0) by reflexivity. reflexivity.
    + rewrite xdiv_fin by exact Ee. rewrite (@Reqb_false e 0) by exact Ee. reflexivity.
Qed.

Lemma ss_chi2_grid {X Y : Type} (f : X -> Y -> Z) (la : list X) (lb : list Y) :
  ss_chi2 (F := xreal) (grid f la lb) = Fin (chi2_real f la lb).
Proof.
  unfold ss_chi2, chi2_real. rewrite grid_nrows.
  destruct la as [|a0 la0] eqn:Ela; [reflexivity |]. rewrite <- Ela.
  assert (Hne : la <> []) by (rewrite Ela; discriminate).
  rewrite grid_ncols by exact Hne.
  destruct (length la * length lb =? 0)%nat; [reflexivity |].
  rewrite chi2_terms_grid by exact Hne. rewrite grid_total.
  set (tot := zsum_over la (fun a => zsum_over lb (f a))).
  rewrite (map_ext _ (fun a => map Fin
            (map (fun b => term_real tot (zsum_over lb (f a))
                             (zsum_over la (fun a' => f a' b)) (f a b)) lb))).
  2:{ intros a. rewrite map_map. apply map_ext. intros b. apply chi2_term_exact. }
  rewrite <- map_map, <- concat_map, fsum_fin. f_equal.
  rewrite Rsum_concat_map. reflexivity.
Qed.

Local Close Scope R_scope.

(** ** Cramer's V in exact arithmetic *)

Local Open Scope R_scope.

Lemma xnan_to_num_finite (x : xreal) : finite (xnan_to_num x).
Proof. destruct x; reflexivity. Qed.

Lemma fsum_finite (l : list xreal) : Forall finite l -> finite (fsum l).
Proof.
  intros Hl.
  assert (E : l = map Fin (map xval l)).
  { induction Hl as [|x l Hx _ IH]; simpl; [reflexivity |]. now rewrite <- Hx, <- IH. }
  rewrite E, fsum_fin. reflexivity.
Qed.

Lemma chi2_terms_finite (t : table) : Forall finite (chi2_terms (F := xreal) t).
Proof.
  unfold chi2_terms. apply Forall_concat. apply Forall_map.
  apply Forall_forall. intros rw _. apply Forall_map.
  apply Forall_forall. intros oc _.
  destruct (total t =? 0)%Z; apply xnan_to_num_finite.
Qed.

Lemma ss_chi2_finite (t : table) : finite (ss_chi2 (F := xreal) t).
Proof.
  unfold ss_chi2. destruct (nrows t * ncols t =? 0)%nat.
  - reflexivity.
  - apply fsum_finite, chi2_terms_finite.
Qed.

Lemma py_max_fin (a b : R) : py_max (Fin a) (Fin b) = Fin (Rmax a b).
Proof.
  unfold py_max. exact_ops. rewrite xltb_fin. unfold Rltb, Rmax.
  destruct (Rlt_dec a b), (Rle_dec a b); try reflexivity; try lra; f_equal; lra.
Qed.

Lemma py_min_fin (a b : R) : py_min (Fin a) (Fin b) = Fin (Rmin a b).
Proof.
  unfold py_min. exact_ops. rewrite xltb_fin. unfold Rltb, Rmin.
  destruct (Rlt_dec b a), (Rle_dec a b); try reflexivity; try lra; f_equal; lra.
Qed.

Lemma xsqrt_fin (a : R) : 0 <= a -> xsqrt (Fin a) = Fin (sqrt a).
Proof. intros Ha. unfold xsqrt. now rewrite Rltb_false. Qed.

Lemma cramers_v_is_formula (t : table) :
  cramers_v (F := xreal) t
  = Fin (cramers_v_formula (xval (ss_chi2 (F := xreal) t)) (total t)
           (Z.of_nat (nrows t)) (Z.of_nat (ncols t))).
Proof.
  unfold cramers_v, cramers_v_formula.
  rewrite (ss_chi2_finite t). cbn [xval].
  set (chi2 := xval (ss_chi2 t)).
  set (n := total t). set (r := Z.of_nat (nrows t)). set (k := Z.of_nat (ncols t)).
  destruct (Z.eqb_spec n 0) as [En | En]; [reflexivity |].
  cbn [orb]. exact_ops.
  destruct (Z.leb_spec n 1) as [Hn | Hn].
  - destruct (Z.ltb_spec 1 n) as [Hn' | _]; [lia |].
    autorewrite with xreal. rewrite py_min_fin, xleb_fin.
    rewrite Rleb_true; [reflexivity |].
    unfold Rmin. destruct (Rle_dec _ _); lra.
  - destruct (Z.ltb_spec 1 n) as [_ | Hn']; [| lia].
    assert (Hn1 : IZR (n - 1) <> 0) by (apply not_0_IZR; lia).
    assert (Hn0 : IZR n <> 0) by (apply not_0_IZR; lia).
    rewrite !xdiv_fin by assumption.
    autorewrite with xreal. rewrite py_max_fin, py_min_fin, xleb_fin.
    rewrite !mult_IZR.
    replace (IZR ((r - 1) ^ 2)) with (IZR (r - 1) ^ 2)
      by (rewrite (pow_IZR (r - 1) 2); reflexivity).
    replace (IZR ((k - 1) ^ 2)) with (IZR (k - 1) ^ 2)
      by (rewrite (pow_IZR (k - 1) 2); reflexivity).
    set (phi2corr := Rmax 0 _). set (denom := Rmin _ _).
    unfold Rleb. destruct (Rle_dec denom 0) as [Hd | Hd]; [reflexivity |].
    rewrite xdiv_fin by lra.
    apply xsqrt_fin.
    assert (0 <= phi2corr) by apply Rmax_l.
    apply Rmult_le_pos; [assumption |].
    left. apply Rinv_0_lt_compat. lra.
Qed.

Local Close Scope R_scope.

(** ** The chi-squared statistic as the specification states it *)

Local Open Scope R_scope.

Lemma zsum_over_zero_inv {X : Type} (l : list X) (f : X -> Z) (a : X) :
  (forall x, In x l -> (0 <= f x)%Z) -> zsum_over l f = 0%Z -> In a l -> f a = 0%Z.
Proof.
  intros Hf Hsum Hin.
  pose proof (zsum_over_ge l f a Hf Hin). pose proof (Hf a Hin). lia.
Qed.

Lemma total_of_cells (t : table) :
  rectangular t ->
  total t = zsum_over (seq 0 (nrows t)) (fun i => row_total t i).
Proof.
  intros Hrect. rewrite (rectangular_grid Hrect) at 1. apply grid_total.
Qed.

Lemma Rdiv_eq_0 (a b : R) : b <> 0 -> a / b = 0 -> a = 0.
Proof.
  intros Hb H. unfold Rdiv in H. apply Rmult_integral in H.
  destruct H as [H | H]; [exact H |].
  exfalso. now apply (Rinv_neq_0_compat b).
Qed.

Lemma Rsum_over_zero {X : Type} (l : list X) (f : X -> R) :
  (forall a, In a l -> f a = 0) -> Rsum_over l f = 0.
Proof.
  intros Hf. rewrite (Rsum_over_ext l f (fun _ => 0)) by exact Hf.
  rewrite Rsum_over_const. lra.
Qed.

(** A cell of a table of counts is at most its row total and at most its
    column total. *)
Lemma cell_le_row_total (t : table) (i j : nat) :
  nonnegative t -> (j < ncols t)%nat -> (cell_at t i j <= row_total t i)%Z.
Proof.
  intros Hnn Hj. unfold row_total.
  apply (zsum_over_ge (seq 0 (ncols t)) (cell_at t i) j).
  - intros x _. now apply nonnegative_cell_at.
  - apply in_seq. lia.
Qed.

Lemma cell_le_col_total (t : table) (i j : nat) :
  nonnegative t -> (i < nrows t)%nat -> (cell_at t i j <= col_total t j)%Z.
Proof.
  intros Hnn Hi. unfold col_total.
  apply (zsum_over_ge (seq 0 (nrows t)) (fun i' => cell_at t i' j) i).
  - intros x _. now apply nonnegative_cell_at.
  - apply in_seq. lia.
Qed.

Lemma term_real_spec (t : table) (i j : nat) :
  nonnegative t -> (i < nrows t)%nat -> (j < ncols t)%nat -> total t <> 0%Z ->
  term_real (total t) (row_total t i) (col_total t j) (cell_at t i j)
  = if Reqb (expected t i j) 0 then 0
    else (IZR (cell_at t i j) - expected t i j) ^ 2 / expected t i j.
Proof.
  intros Hnn Hi Hj Htot. unfold term_real.
  destruct (Z.eqb_spec (total t) 0) as [E | _]; [contradiction |].
  fold (expected t i j). cbv zeta.
  destruct (Req_dec_T (expected t i j) 0) as [Ee | Ee].
  - rewrite (@Reqb_true (expected t i j) 0) by exact Ee.
    assert (Ho : cell_at t i j = 0%Z).
    { unfold expected in Ee. apply Rdiv_eq_0 in Ee; [| now apply not_0_IZR].
      apply eq_IZR in Ee.
      pose proof (cell_le_row_total i Hnn Hj).
      pose proof (cell_le_col_total j Hnn Hi).
      pose proof (nonnegative_cell_at i j Hnn). nia. }
    rewrite Ho, Ee. rewrite Reqb_true; [reflexivity | lra].
  - rewrite (@Reqb_false (expected t i j) 0) by exact Ee.
    simpl. field. exact Ee.
Qed.

Lemma ss_chi2_is_chi2_spec (t : table) :
  rectangular t -> nonnegative t ->
  ss_chi2 (F := xreal) t = Fin (chi2_spec t).
Proof.
  intros Hrect Hnn.
  rewrite (rectangular_grid Hrect) at 1. rewrite ss_chi2_grid. f_equal.
  unfold chi2_real, chi2_spec. rewrite !length_seq.
  change (zsum_over (seq 0 (nrows t))
            (fun a => zsum_over (seq 0 (ncols t)) (cell_at t a)))
    with (zsum_over (seq 0 (nrows t)) (fun i => row_total t i)).
  rewrite <- (total_of_cells Hrect).
  destruct (Nat.eqb_spec (nrows t * ncols t) 0) as [Esize | Esize].
  - destruct (total t =? 0)%Z; [reflexivity |].
    symmetry. apply Rsum_over_zero. intros i Hi. apply in_seq in Hi.
    assert (Ek : ncols t = 0%nat) by nia. rewrite Ek. reflexivity.
  - destruct (Z.eqb_spec (total t) 0) as [Etot | Etot].
    + apply Rsum_over_zero. intros i Hi. apply Rsum_over_zero. intros j Hj.
      apply in_seq in Hi. apply in_seq in Hj.
      unfold term_real. rewrite Etot. cbn [Z.eqb].
      assert (Hrow : row_total t i = 0%Z).
      { apply (zsum_over_zero_inv (seq 0 (nrows t)) (fun i => row_total t i)).
        - intros x _. apply zsum_over_nonneg. intros y _. now apply nonnegative_cell_at.
        - rewrite <- (total_of_cells Hrect). exact Etot.
        - apply in_seq. lia. }
      pose proof (@cell_le_row_total t i j Hnn ltac:(lia)).
      pose proof (nonnegative_cell_at i j Hnn).
      replace (cell_at t i j) with 0%Z by lia. reflexivity.
    + apply Rsum_over_ext. intros i Hi. apply Rsum_over_ext. intros j Hj.
      apply in_seq in Hi. apply in_seq in Hj.
      apply term_real_spec; try assumption; lia.
Qed.


Local Close Scope R_scope.

(** ** Bounds on the statistic of a table of counts *)

Local Open Scope R_scope.

Lemma Rdiv_le_bound (x y z : R) : 0 < y -> x <= z * y -> x / y <= z.
Proof.
  intros Hy H. unfold Rdiv.
  apply (Rmult_le_reg_r y); [exact Hy |].
  rewrite Rmult_assoc, Rinv_l by lra. lra.
Qed.



Section CountGrid.
Variables X Y : Type.
Variable f : X -> Y -> Z.
Variable la : list X.
Variable lb : list Y.
Hypothesis f_nonneg : forall a b, In a la -> In b lb -> (0 <= f a b)%Z.

Let rowZ (a : X) : Z := zsum_over lb (f a).
Let colZ (b : Y) : Z := zsum_over la (fun a => f a b).
Let totZ : Z := zsum_over la rowZ.

Hypothesis total_pos : (0 < totZ)%Z.

Let o (a : X) (b : Y) : R := IZR (f a b).
Let e (a : X) (b : Y) : R := IZR (rowZ a * colZ b) / IZR totZ.












End CountGrid.

Local Close Scope R_scope.

(** ** Bounds on Cramer's V *)

Local Open Scope R_scope.




Lemma cramers_v_formula_zero (n r k : Z) :
  (1 <= r)%Z -> (1 <= k)%Z -> cramers_v_formula 0 n r k = 0.
Proof.
  intros Hr Hk. unfold cramers_v_formula.
  destruct (Z.eqb_spec n 0) as [E | E]; [reflexivity |]. cbn [orb].
  destruct (Z.leb_spec n 1) as [Hn1 | Hn1].
  - rewrite Rleb_true; [reflexivity |]. unfold Rmin. destruct (Rle_dec _ _); lra.
  - destruct (Rleb _ 0); [reflexivity |].
    assert (Hm : 0 < IZR (n - 1)) by (apply IZR_lt; lia).
    assert (Ha : 0 <= IZR (r - 1)) by (apply IZR_le; lia).
    assert (Hb : 0 <= IZR (k - 1)) by (apply IZR_le; lia).
    assert (E0 : Rmax 0 (0 / IZR n - IZR (k - 1) * IZR (r - 1) / IZR (n - 1)) = 0).
    { apply Rmax_left.
      assert (0 <= IZR (k - 1) * IZR (r - 1) / IZR (n - 1)).
      { apply Rmult_le_pos; [now apply Rmult_le_pos |].
        left. now apply Rinv_0_lt_compat. }
      unfold Rdiv at 1. lra. }
    rewrite E0. unfold Rdiv. rewrite Rmult_0_l. apply sqrt_0.
Qed.

Local Close Scope R_scope.

Local Open Scope R_scope.



Lemma rectangular_total_pos (t : table) :
  rectangular t -> (0 < total t)%Z -> (1 <= nrows t)%nat /\ (1 <= ncols t)%nat.
Proof.
  intros Hrect Htot. rewrite (total_of_cells Hrect) in Htot.
  split.
  - destruct (nrows t); [cbn in Htot |]; lia.
  - unfold row_total in Htot. destruct (ncols t); [| lia].
    cbn in Htot. rewrite zsum_over_zero in Htot. lia.
Qed.


Lemma cramers_v_table_independent (t : table) :
  rectangular t -> nonnegative t -> (0 < total t)%Z -> independent t ->
  cramers_v (F := xreal) t = Fin 0.
Proof.
  intros Hrect Hnn Htot Hind.
  rewrite cramers_v_is_formula.
  destruct (rectangular_total_pos Hrect Htot) as [Hr Hk].
  rewrite ss_chi2_is_chi2_spec by assumption. cbn [xval].
  assert (E : chi2_spec t = 0).
  { unfold chi2_spec. destruct (total t =? 0)%Z; [reflexivity |].
    apply Rsum_over_zero. intros i Hi. apply Rsum_over_zero. intros j Hj.
    apply in_seq in Hi. apply in_seq in Hj.
    rewrite (Hind i j) by lia.
    destruct (Reqb (expected t i j) 0); [reflexivity |].
    unfold Rminus. rewrite Rplus_opp_r. unfold Rdiv. simpl. lra. }
  rewrite E. f_equal. apply cramers_v_formula_zero; lia.
Qed.

Local Close Scope R_scope.

(** ** Contingency tables of two columns *)

Lemma scalar_eqb_refl (a : scalar) : scalar_eqb a a = true.
Proof.
  destruct a as [q | b | s]; simpl.
  - apply Qeq_bool_iff. reflexivity.
  - apply eqb_reflx.
  - apply String.eqb_refl.
Qed.

Lemma in_insert_sorted (x y : scalar) (l : list scalar) :
  In x (insert_sorted y l) <-> x = y \/ In x l.
Proof.
  induction l as [|z l IH]; simpl.
  - intuition.
  - destruct (scalar_leb y z); simpl; rewrite ?IH; intuition.
Qed.

Lemma in_sort_values (x : scalar) (l : list scalar) :
  In x (sort_values l) <-> In x l.
Proof.
  induction l as [|y l IH]; simpl; [tauto |].
  rewrite in_insert_sorted, IH. intuition.
Qed.

Lemma crosstab_is_grid (xs ys : list cell) :
  crosstab xs ys
  = grid (count_pairs (joint xs ys))
         (sort_values (unique (map fst (joint xs ys))))
         (sort_values (unique (map snd (joint xs ys)))).
Proof. reflexivity. Qed.

Lemma grid_rectangular {X Y : Type} (f : X -> Y -> Z) (la : list X) (lb : list Y) :
  rectangular (grid f la lb).
Proof.
  unfold rectangular. destruct la as [|a la]; [constructor |].
  rewrite grid_ncols by discriminate.
  apply Forall_forall. intros row Hrow. unfold grid in Hrow.
  apply in_map_iff in Hrow. destruct Hrow as [x [<- _]]. apply length_map.
Qed.

Lemma count_pairs_nonneg (ps : list (scalar * scalar)) (a b : scalar) :
  (0 <= count_pairs ps a b)%Z.
Proof. unfold count_pairs. lia. Qed.

Lemma crosstab_nonnegative (xs ys : list cell) : nonnegative (crosstab xs ys).
Proof.
  rewrite crosstab_is_grid. unfold nonnegative, grid.
  apply Forall_map, Forall_forall. intros a _.
  apply Forall_map, Forall_forall. intros b _. apply count_pairs_nonneg.
Qed.

Lemma crosstab_total_pos (xs ys : list cell) :
  joint xs ys <> [] -> (0 < total (crosstab xs ys))%Z.
Proof.
  intros Hne. rewrite crosstab_is_grid, grid_total.
  destruct (joint xs ys) as [|[x0 y0] ps] eqn:E; [contradiction |].
  set (la := sort_values _). set (lb := sort_values _).
  assert (Hx : In x0 la) by (apply in_sort_values; simpl; now left).
  assert (Hy : In y0 lb) by (apply in_sort_values; simpl; now left).
  assert (H1 : (1 <= count_pairs ((x0, y0) :: ps) x0 y0)%Z).
  { unfold count_pairs. simpl. rewrite !scalar_eqb_refl. simpl. lia. }
  assert (H2 : (count_pairs ((x0, y0) :: ps) x0 y0
                <= zsum_over lb (count_pairs ((x0, y0) :: ps) x0))%Z).
  { apply (zsum_over_ge lb (count_pairs ((x0, y0) :: ps) x0) y0); [| exact Hy].
    intros; apply count_pairs_nonneg. }
  assert (H3 : (zsum_over lb (count_pairs ((x0, y0) :: ps) x0)
                <= zsum_over la (fun a => zsum_over lb (count_pairs ((x0, y0) :: ps) a)))%Z).
  { apply (zsum_over_ge la (fun a => zsum_over lb (count_pairs ((x0, y0) :: ps) a)) x0);
      [| exact Hx].
    intros a _. apply zsum_over_nonneg. intros; apply count_pairs_nonneg. }
  lia.
Qed.

(** ** The claims on [ss_chi2] and [cramers_v] *)






(** The columns [coin] and [side] are independent, so their V is 0 in exact
    arithmetic; binary64 gives 0 as well. *)
Example cramers_v_of_independent_columns :
  crosstab coin side = [[1; 1]; [1; 1]]%Z /\
  cramers_v (F := xreal) (crosstab coin side) = Fin 0%R /\
  cramers_v (F := float) (crosstab coin side) = 0%float.
Proof.
  split; [reflexivity |]. split; [| vm_compute; reflexivity].
  assert (Hne : joint coin side <> []) by discriminate.
  assert (Hrect : rectangular (crosstab coin side))
    by (rewrite crosstab_is_grid; apply grid_rectangular).
  apply cramers_v_table_independent; try assumption.
  - apply crosstab_nonnegative.
  - now apply crosstab_total_pos.
  - change (crosstab coin side) with [[1; 1]; [1; 1]]%Z.
    intros i j Hi Hj. unfold nrows, ncols in Hi, Hj. simpl in Hi, Hj.
    unfold expected.
    assert (Ei : i = 0%nat \/ i = 1%nat) by lia.
    assert (Ej : j = 0%nat \/ j = 1%nat) by lia.
    destruct Ei as [-> | ->], Ej as [-> | ->]; vm_compute; lra.
Qed.

(** ** Pearson's coefficient of a column with itself, in exact arithmetic *)

Local Open Scope R_scope.

Lemma to_float_exact (c : cell) :
  to_float (F := xreal) c = option_map Fin (cell_real c).
Proof.
  destruct c as [[q | b | s] |]; simpl; try reflexivity.
  - unfold of_Q. exact_ops. rewrite xdiv_fin; [reflexivity |].
    apply not_0_IZR. discriminate.
  - destruct b; reflexivity.
Qed.


Lemma Rsum_over_nonneg {X : Type} (l : list X) (f : X -> R) :
  (forall a, In a l -> 0 <= f a) -> 0 <= Rsum_over l f.
Proof.
  intros Hf. rewrite <- (Rsum_over_zero l (fun _ => 0)) by reflexivity.
  now apply Rsum_over_le.
Qed.

Lemma Rsum_over_zero_inv {X : Type} (l : list X) (f : X -> R) (a : X) :
  (forall x, In x l -> 0 <= f x) -> Rsum_over l f = 0 -> In a l -> f a = 0.
Proof.
  induction l as [|x l IH]; intros Hf Hsum Hin; [contradiction |].
  rewrite Rsum_over_cons in Hsum.
  assert (0 <= f x) by (apply Hf; now left).
  assert (0 <= Rsum_over l f) by (apply Rsum_over_nonneg; intros y Hy; apply Hf; now right).
  destruct Hin as [-> | Hin]; [lra |].
  apply IH; [intros y Hy; apply Hf; now right | lra | exact Hin].
Qed.

Lemma sum_sq_nonneg (l : list R) : 0 <= sum_sq l.
Proof. unfold sum_sq. apply Rsum_over_nonneg. intros x _. apply Rle_0_sqr. Qed.





Local Close Scope R_scope.

(** ** Symmetry of Cramer's V in its two columns, in exact arithmetic *)





Local Open Scope R_scope.



Local Close Scope R_scope.



(** ** Shape, symmetry and diagonal of the two correlation matrices *)

Lemma nth_map_map {X Y V : Type} (g : X -> Y -> V) (la : list X) (lb : list Y)
    (i j : nat) (da : X) (db : Y) (d : V) :
  (i < length la)%nat -> (j < length lb)%nat ->
  nth j (nth i (map (fun a => map (g a) lb) la) []) d = g (nth i la da) (nth j lb db).
Proof.
  intros Hi Hj.
  rewrite (nth_indep _ [] (map (g da) lb)) by (rewrite length_map; exact Hi).
  rewrite (map_nth (fun a => map (g a) lb) la da i).
  rewrite (nth_indep _ d (g (nth i la da) db)) by (rewrite length_map; exact Hj).
  apply (map_nth (g (nth i la da))).
Qed.



Section MatrixShape.
Context {F : Type} {A : Arith F}.


Lemma corr_entry (df : DataFrame) (cols : list string) (d : F) (i j : nat) :
  (i < length cols)%nat -> (j < length cols)%nat ->
  entry d (corr df cols) i j
  = pearson (values (getitem df (nth (Nat.max i j) cols EmptyString)))
            (values (getitem df (nth (Nat.min i j) cols EmptyString))).
Proof.
  intros Hi Hj. unfold entry, corr. cbn [entries].
  rewrite (nth_map_map _ _ _ 0%nat 0%nat) by (rewrite length_seq; assumption).
  now rewrite !seq_nth by assumption.
Qed.


Lemma numeric_correlation_cases (df : DataFrame) :
  (get_numeric_columns df = [] /\ numeric_correlation df = empty_matrix) \/
  (get_numeric_columns df <> [] /\
   numeric_correlation df = corr df (get_numeric_columns df)).
Proof.
  unfold numeric_correlation. destruct (get_numeric_columns df).
  - left. split; reflexivity.
  - right. split; [discriminate | reflexivity].
Qed.



End MatrixShape.




(** In binary64 the two triangles of the categorical matrix need not agree
    to the last bit: the entries for [survey] are 0.2529822128134704 and
    0.2529822128134703. *)
Example categorical_correlation_binary64_triangles :
  crosstab (values (getitem survey "g")) (values (getitem survey "h"))
  = [[1; 1; 3]; [2; 4; 1]]%Z /\
  categorical_correlation (F := float) survey
  = mkMatrix ["g"; "h"]%string
      [[1; 0x1.030dc4ea03a73p-2]; [0x1.030dc4ea03a71p-2; 1]]%float.
Proof. split; vm_compute; reflexivity. Qed.


(* ================================================================== *)
(** * Part IV.  Further properties of the code                         *)
(* ================================================================== *)

(** ** correlation_analysis.py: range and degenerate cases *)

Local Open Scope R_scope.




Lemma cramers_v_formula_degenerate (chi2 : R) (n r k : Z) :
  (0 <= r)%Z -> (0 <= k)%Z ->
  (r <= 1 \/ k <= 1 \/ n <= r \/ n <= k)%Z ->
  cramers_v_formula chi2 n r k = 0.
Proof.
  intros Hr Hk Hdeg. unfold cramers_v_formula.
  destruct (Z.eqb_spec n 0) as [E | E]; [reflexivity |]. cbn [orb].
  destruct (Z.leb_spec n 1) as [Hn1 | Hn1].
  - rewrite Rleb_true; [reflexivity |]. unfold Rmin. destruct (Rle_dec _ _); lra.
  - rewrite Rleb_true; [reflexivity |].
    rewrite !minus_IZR.
    set (a := IZR r - 1). set (b := IZR k - 1). set (m := IZR n - 1).
    assert (Hm : 0 < m) by (unfold m; apply IZR_lt in Hn1; lra).
    replace (IZR k - b ^ 2 / m - 1) with (b - b ^ 2 / m) by (unfold b; lra).
    replace (IZR r - a ^ 2 / m - 1) with (a - a ^ 2 / m) by (unfold a; lra).
    assert (Hsmall : forall x : R, -1 <= x -> (x <= 0 \/ m <= x) -> x - x ^ 2 / m <= 0).
    { intros x Hx1 Hx.
      apply (Rmult_le_reg_r m); [exact Hm |].
      replace ((x - x ^ 2 / m) * m) with (x * (m - x)) by (field; lra).
      destruct Hx; nra. }
    assert (Ha : -1 <= a) by (unfold a; apply IZR_le in Hr; lra).
    assert (Hb : -1 <= b) by (unfold b; apply IZR_le in Hk; lra).
    destruct Hdeg as [H | [H | [H | H]]]; apply IZR_le in H.
    + apply Rle_trans with (a - a ^ 2 / m); [apply Rmin_r |].
      apply Hsmall; [exact Ha | left; unfold a; lra].
    + apply Rle_trans with (b - b ^ 2 / m); [apply Rmin_l |].
      apply Hsmall; [exact Hb | left; unfold b; lra].
    + apply Rle_trans with (a - a ^ 2 / m); [apply Rmin_r |].
      apply Hsmall; [exact Ha | right; unfold a, m; lra].
    + apply Rle_trans with (b - b ^ 2 / m); [apply Rmin_l |].
      apply Hsmall; [exact Hb | right; unfold b, m; lra].
Qed.

(** X2: whatever its cells, a table with at most one row or at most one
    column, or whose grand total does not exceed its number of rows or of
    columns, has Cramer's V equal to 0: the bias correction leaves no
    positive denominator.  In particular two columns whose value pairs all
    occur once get 0, although they are perfectly associated. *)
Theorem cramers_v_degenerate (t : table) :
  (nrows t <= 1)%nat \/ (ncols t <= 1)%nat \/
  (total t <= Z.of_nat (nrows t))%Z \/ (total t <= Z.of_nat (ncols t))%Z ->
  cramers_v (F := xreal) t = Fin 0.
Proof.
  intros Hdeg. rewrite cramers_v_is_formula. f_equal.
  apply cramers_v_formula_degenerate; lia.
Qed.

(** Witness for X2: the table [[1; 0]; [0; 1]], with total 2 and 2 columns. *)
Lemma cramers_v_degenerate_witness :
  cramers_v (F := xreal) identity_table = Fin 0.
Proof.
  apply (@cramers_v_degenerate identity_table).
  right. right. left. vm_compute. discriminate.
Defined.



Local Close Scope R_scope.


(** ** Rounding in exact arithmetic *)

Local Open Scope R_scope.

Lemma Int_part_IZR (z : Z) : Int_part (IZR z) = z.
Proof. symmetry. apply Int_part_spec. lra. Qed.

Lemma Rround_half_even_IZR (z : Z) : Rround_half_even (IZR z) = z.
Proof.
  unfold Rround_half_even. rewrite Int_part_IZR.
  rewrite Rltb_true by lra. reflexivity.
Qed.

Lemma Rround_half_even_bounds (y : R) (N : Z) :
  0 <= y <= IZR N -> (0 <= Rround_half_even y <= N)%Z.
Proof.
  intros [H0 HN]. unfold Rround_half_even.
  destruct (base_Int_part y) as [Hle Hgt].
  set (f := Int_part y) in *.
  assert (Hf0 : (0 <= f)%Z).
  { assert (IZR (-1) < IZR f) by (simpl; lra). apply lt_IZR in H. lia. }
  assert (HfN : (f <= N)%Z) by (apply le_IZR; lra).
  assert (Hup : 0 < y - IZR f -> (f + 1 <= N)%Z).
  { intros Hd. assert (IZR f < IZR N) by lra. apply lt_IZR in H. lia. }
  unfold Rltb.
  destruct (Rlt_dec (y - IZR f) (1 / 2)) as [Hd | Hd]; [lia |].
  destruct (Rlt_dec (1 / 2) (y - IZR f)) as [Hd' | Hd'].
  - assert (f + 1 <= N)%Z by (apply Hup; lra). lia.
  - destruct (Z.even f); [lia |].
    assert (f + 1 <= N)%Z by (apply Hup; lra). lia.
Qed.

Lemma pow10_pos (nd : nat) : 0 < IZR (10 ^ Z.of_nat nd).
Proof. apply IZR_lt. apply Z.pow_pos_nonneg; lia. Qed.

(** Rounding to decimals keeps a number between 0 and an integer bound. *)
Lemma xround_range (nd : nat) (x : R) (N : Z) :
  0 <= x <= IZR N ->
  exists p, xround nd (Fin x) = Fin p /\ 0 <= p <= IZR N.
Proof.
  intros [H0 HN]. unfold xround. eexists. split; [reflexivity |].
  pose proof (pow10_pos nd) as HP. set (P := IZR (10 ^ Z.of_nat nd)) in *.
  assert (Hy : 0 <= x * P <= IZR (N * 10 ^ Z.of_nat nd)).
  { rewrite mult_IZR. fold P. split; [apply Rmult_le_pos; lra |].
    apply Rmult_le_compat_r; lra. }
  apply Rround_half_even_bounds in Hy. destruct Hy as [Hy0 HyN].
  apply IZR_le in Hy0, HyN. rewrite mult_IZR in HyN. fold P in HyN.
  split.
  - apply Rmult_le_pos; [exact Hy0 |]. left. now apply Rinv_0_lt_compat.
  - apply Rdiv_le_bound; assumption.
Qed.

Lemma xround_integer (nd : nat) (z : Z) : xround nd (Fin (IZR z)) = Fin (IZR z).
Proof.
  unfold xround. rewrite <- mult_IZR, Rround_half_even_IZR, mult_IZR.
  f_equal. field. pose proof (pow10_pos nd). lra.
Qed.

Local Close Scope R_scope.

(** ** cleaning_insights.py: duplicates *)

Lemma filter_length_le_pointwise {X : Type} (f g : X -> bool) (l : list X) :
  (forall x, In x l -> f x = true -> g x = true) ->
  (length (filter f l) <= length (filter g l))%nat.
Proof.
  induction l as [|x l IH]; intros Hfg; simpl; [lia |].
  assert (IH' : (length (filter f l) <= length (filter g l))%nat)
    by (apply IH; intros y Hy; apply Hfg; now right).
  destruct (f x) eqn:Ef.
  - rewrite (Hfg x (or_introl eq_refl) Ef). simpl. lia.
  - destruct (g x); simpl; lia.
Qed.

(** The first row repeats nothing, so fewer rows repeat than there are. *)
Lemma duplicate_count_lt (rs : list (list cell)) :
  rs <> [] -> (duplicate_count rs <= length rs - 1)%nat.
Proof.
  intros Hne. unfold duplicate_count.
  destruct rs as [|r rs]; [contradiction |].
  change (seq 0 (length (r :: rs))) with (0%nat :: seq 1 (length rs)).
  cbn [filter].
  change (repeats_earlier (r :: rs) 0) with false. cbv iota.
  pose proof (filter_length_le (repeats_earlier (r :: rs)) (seq 1 (length rs))) as H.
  rewrite length_seq in H. simpl length. lia.
Qed.

Lemma rows_length (df : DataFrame) (subset : list string) :
  length (rows df subset) = index_len df.
Proof. unfold rows. now rewrite length_map, length_seq. Qed.

Lemma count_true_duplicated_bounds (df : DataFrame) (subset : list string) :
  (0 <= count_true (duplicated df subset))%Z /\
  (index_len df <> 0%nat ->
   (count_true (duplicated df subset) <= Z.of_nat (index_len df) - 1)%Z).
Proof.
  split; [unfold count_true; lia |]. intros Hlen.
  destruct (empty df) eqn:E.
  - unfold duplicated. rewrite E. cbn. lia.
  - rewrite duplicated_count by exact E.
    assert (Hrs : rows df subset <> []).
    { intros H. apply (f_equal (@length _)) in H. rewrite rows_length in H.
      simpl in H. contradiction. }
    pose proof (duplicate_count_lt Hrs) as H. rewrite rows_length in H. lia.
Qed.

(** X4: the number of duplicate rows is never negative and, on a table with
    rows, at most the row count less one, so at least one row is unique; in
    exact arithmetic the reported percentage is a number between 0 and
    100. *)
Theorem duplicate_rows_summary_bounds (df : DataFrame) :
  let summary := duplicate_rows_summary (F := xreal) df in
  (0 <= duplicate_rows summary)%Z /\
  (index_len df <> 0%nat ->
     (duplicate_rows summary <= total_rows summary - 1)%Z /\
     (1 <= unique_rows summary)%Z) /\
  exists p, duplicate_percent summary = Fin p /\ (0 <= p <= 100)%R.
Proof.
  cbv zeta.
  pose proof (count_true_duplicated_bounds df (map name (columns df))) as [H0 H1].
  unfold duplicate_rows_summary. cbn [duplicate_rows total_rows unique_rows duplicate_percent].
  split; [exact H0 |]. split; [intros Hlen; specialize (H1 Hlen); lia |].
  destruct (Z.eqb_spec (Z.of_nat (index_len df)) 0) as [E | E].
  - exists 0%R. split; [reflexivity | lra].
  - assert (Hlen : index_len df <> 0%nat) by lia. specialize (H1 Hlen).
    set (d := count_true _) in *. set (n := Z.of_nat (index_len df)) in *.
    exact_ops. rewrite xdiv_fin by (apply not_0_IZR; lia). rewrite xmul_fin.
    apply (@xround_range 2 _ 100).
    assert (Hn : (0 < IZR n)%R) by (apply IZR_lt; lia).
    apply IZR_le in H0, H1. rewrite minus_IZR in H1.
    split.
    + apply Rmult_le_pos; [| lra].
      apply Rmult_le_pos; [exact H0 |]. left. now apply Rinv_0_lt_compat.
    + apply Rmult_le_reg_r with (/ 100)%R; [lra |].
      replace (IZR d / IZR n * 100 * / 100)%R with (IZR d / IZR n)%R by (field; lra).
      replace (100 * / 100)%R with 1%R by field.
      apply Rdiv_le_bound; lra.
Qed.

Lemma row_eqb_map {X : Type} (f g : X -> cell) (l : list X) :
  row_eqb (map f l) (map g l) = forallb (fun c => cell_eqb (f c) (g c)) l.
Proof. induction l as [|c l IH]; simpl; [reflexivity | now rewrite IH]. Qed.

Lemma rows_nth (df : DataFrame) (subset : list string) (i : nat) :
  (i < index_len df)%nat ->
  nth i (rows df subset) []
  = map (fun col => nth i (values (getitem df col)) None) subset.
Proof.
  intros Hi. unfold rows.
  rewrite (nth_indep _ []
             (map (fun col => nth 0 (values (getitem df col)) None) subset))
    by (now rewrite length_map, length_seq).
  rewrite (map_nth (fun i => map (fun col => nth i (values (getitem df col)) None) subset)
             (seq 0 (index_len df)) 0%nat i).
  now rewrite seq_nth.
Qed.

(** A row that repeats an earlier row in every column repeats it in each
    single column. *)
Lemma repeats_earlier_column (df : DataFrame) (subset : list string) (col : string) (i : nat) :
  In col subset -> (i < index_len df)%nat ->
  repeats_earlier (rows df subset) i = true ->
  repeats_earlier (rows df [col]) i = true.
Proof.
  intros Hcol Hi. unfold repeats_earlier. rewrite !existsb_exists.
  intros [j [Hj Heq]]. exists j. split; [exact Hj |].
  apply in_seq in Hj.
  rewrite !rows_nth in * by lia.
  rewrite row_eqb_map in *. rewrite forallb_forall in Heq.
  cbn [forallb]. rewrite (Heq col Hcol). reflexivity.
Qed.

Lemma duplicated_column_ge (df : DataFrame) (col : string) :
  In col (map name (columns df)) ->
  (count_true (duplicated df (map name (columns df)))
   <= count_true (duplicated df [col]))%Z.
Proof.
  intros Hcol. destruct (empty df) eqn:E.
  - unfold duplicated. rewrite E. lia.
  - rewrite !duplicated_count by exact E.
    apply inj_le. unfold duplicate_count. rewrite !rows_length.
    apply filter_length_le_pointwise. intros i Hi. apply in_seq in Hi.
    apply repeats_earlier_column; [exact Hcol | lia].
Qed.

(** X5: every entry of [duplicates_by_column] belongs to a column of the
    table and counts at least as many duplicates as there are duplicate
    rows: a row that repeats an earlier row repeats it in each column. *)
Theorem duplicates_by_column_ge (F : Type) (A : Arith F) (Rd : Rounding F)
    (df : DataFrame) (col : string) (c : Z) :
  In (col, c) (duplicates_by_column (duplicate_rows_summary df)) ->
  In col (map name (columns df)) /\
  (duplicate_rows (duplicate_rows_summary df) <= c)%Z.
Proof.
  unfold duplicate_rows_summary. cbn [duplicates_by_column duplicate_rows].
  intros Hin. apply in_map_iff in Hin. destruct Hin as [x [Hx Hin]].
  inversion Hx; subst. split; [exact Hin |]. now apply duplicated_column_ge.
Qed.

(** Witness for X5: column [a] of [repeated_table] has 2 duplicates, the
    table 1 duplicate row. *)
Lemma duplicates_by_column_ge_witness :
  In "a"%string (map name (columns repeated_table)) /\
  (duplicate_rows (duplicate_rows_summary (F := float) repeated_table) <= 2)%Z.
Proof.
  apply (@duplicates_by_column_ge float binary64 binary64_rounding
           repeated_table "a"%string 2%Z).
  left. reflexivity.
Defined.

(** ** cleaning_insights.py: range and edge cases of the quality score *)

Local Open Scope R_scope.

Lemma data_quality_score_exact (df : DataFrame) :
  size df <> 0%nat ->
  let missing := IZR (isna_count df) in
  let cells := IZR (Z.of_nat (size df)) in
  let len := IZR (Z.of_nat (index_len df)) in
  let dups := IZR (count_true (duplicated df (map name (columns df)))) in
  data_quality_score (F := xreal) df
  = mkQualityScore
      (xround 2 (Fin ((1 - missing / cells) * 100)))
      (xround 2 (Fin ((len - dups) / len * 100)))
      (xround 2 (Fin (((1 - missing / cells) * 100 + (len - dups) / len * 100) / 2))).
Proof.
  intros Hsize. pose proof (size_nonzero df Hsize) as Hlen. cbv zeta.
  unfold data_quality_score.
  destruct (Z.eqb_spec (Z.of_nat (index_len df)) 0) as [E | E]; [lia |].
  exact_ops.
  rewrite !xdiv_fin by (apply not_0_IZR; lia).
  autorewrite with xreal. rewrite xdiv_fin by lra.
  rewrite minus_IZR. reflexivity.
Qed.

Lemma isna_count_bounds (df : DataFrame) :
  well_formed df -> (0 <= isna_count df <= Z.of_nat (size df))%Z.
Proof.
  intros [_ Hlen]. unfold isna_count, size.
  induction (columns df) as [|s cs IH]; [simpl; lia |].
  inversion Hlen as [|? ? Hs Hcs]; subst. specialize (IH Hcs).
  cbn [map zsum fold_right length].
  fold (zsum (map (fun s0 => Z.of_nat (length (filter (fun c => cell_eqb c None) (values s0)))) cs)).
  pose proof (filter_length_le (fun c => cell_eqb c None) (values s)) as Hf.
  rewrite Hs in Hf. nia.
Qed.

(** X6: on a well-formed table with at least one cell the three quality
    scores are, in exact arithmetic, numbers between 0 and 100. *)
Theorem data_quality_score_range (df : DataFrame) :
  well_formed df -> size df <> 0%nat ->
  exists c u o,
    data_quality_score (F := xreal) df = mkQualityScore (Fin c) (Fin u) (Fin o) /\
    0 <= c <= 100 /\ 0 <= u <= 100 /\ 0 <= o <= 100.
Proof.
  intros Hwf Hsize. rewrite data_quality_score_exact by exact Hsize. cbv zeta.
  pose proof (size_nonzero df Hsize) as Hlen.
  pose proof (isna_count_bounds Hwf) as [Hm0 Hm1].
  pose proof (count_true_duplicated_bounds df (map name (columns df))) as [Hd0 Hd1].
  specialize (Hd1 Hlen).
  apply IZR_le in Hm0, Hm1, Hd0, Hd1. rewrite minus_IZR in Hd1.
  set (m := IZR (isna_count df)) in *.
  set (s := IZR (Z.of_nat (size df))) in *.
  set (n := IZR (Z.of_nat (index_len df))) in *.
  set (d := IZR (count_true _)) in *.
  assert (Hs : 0 < s) by (unfold s; apply IZR_lt; lia).
  assert (Hn : 0 < n) by (unfold n; apply IZR_lt; lia).
  assert (Hq : 0 <= m / s <= 1).
  { split; [apply Rmult_le_pos; [lra | left; now apply Rinv_0_lt_compat] |].
    apply Rdiv_le_bound; lra. }
  assert (Hu : 0 <= (n - d) / n <= 1).
  { split; [apply Rmult_le_pos; [lra | left; now apply Rinv_0_lt_compat] |].
    apply Rdiv_le_bound; lra. }
  destruct (@xround_range 2 ((1 - m / s) * 100) 100) as (c & Ec & Hc); [simpl; lra |].
  destruct (@xround_range 2 ((n - d) / n * 100) 100) as (u & Eu & Hu'); [simpl; lra |].
  destruct (@xround_range 2 (((1 - m / s) * 100 + (n - d) / n * 100) / 2) 100)
    as (o & Eo & Ho); [simpl; lra |].
  exists c, u, o. rewrite Ec, Eu, Eo. simpl in Hc, Hu', Ho. tauto.
Qed.

(** Witness for X6: the one-cell table. *)
Lemma data_quality_score_range_witness :
  exists c u o,
    data_quality_score (F := xreal) one_cell = mkQualityScore (Fin c) (Fin u) (Fin o) /\
    0 <= c <= 100 /\ 0 <= u <= 100 /\ 0 <= o <= 100.
Proof.
  apply (@data_quality_score_range one_cell).
  - split; [repeat constructor; intros [] | repeat constructor].
  - discriminate.
Defined.

(** X7: a table with at least one cell, no missing cell and no duplicate
    row scores exactly 100 for completeness, uniqueness and overall. *)
Theorem data_quality_score_perfect (df : DataFrame) :
  size df <> 0%nat -> isna_count df = 0%Z ->
  count_true (duplicated df (map name (columns df))) = 0%Z ->
  data_quality_score (F := xreal) df
  = mkQualityScore (Fin 100) (Fin 100) (Fin 100).
Proof.
  intros Hsize Hm Hd. rewrite data_quality_score_exact by exact Hsize. cbv zeta.
  pose proof (size_nonzero df Hsize) as Hlen. rewrite Hm, Hd.
  assert (Hs : IZR (Z.of_nat (size df)) <> 0) by (apply not_0_IZR; lia).
  assert (Hn : IZR (Z.of_nat (index_len df)) <> 0) by (apply not_0_IZR; lia).
  replace ((1 - 0 / IZR (Z.of_nat (size df))) * 100) with (IZR 100) by (field; exact Hs).
  replace ((IZR (Z.of_nat (index_len df)) - 0) / IZR (Z.of_nat (index_len df)) * 100)
    with (IZR 100) by (field; exact Hn).
  replace ((IZR 100 + IZR 100) / 2) with (IZR 100) by lra.
  now rewrite xround_integer.
Qed.

(** Witness for X7: the one-cell table. *)
Lemma data_quality_score_perfect_witness :
  data_quality_score (F := xreal) one_cell
  = mkQualityScore (Fin 100) (Fin 100) (Fin 100).
Proof.
  apply (@data_quality_score_perfect one_cell).
  - discriminate.
  - reflexivity.
  - reflexivity.
Defined.

Lemma isna_count_no_rows (df : DataFrame) :
  well_formed df -> index_len df = 0%nat -> isna_count df = 0%Z.
Proof.
  intros Hwf Hlen. pose proof (isna_count_bounds Hwf) as H.
  unfold size in H. rewrite Hlen in H. simpl in H. lia.
Qed.

(** X8: on a well-formed table that has columns and no rows the division
    of the missing cells by the zero cell count is 0 / 0: completeness and
    overall are NaN, and only the uniqueness has its guarded value 100. *)
Theorem data_quality_score_no_rows (df : DataFrame) :
  well_formed df -> columns df <> [] -> index_len df = 0%nat ->
  data_quality_score (F := xreal) df = mkQualityScore NaN (Fin 100) NaN.
Proof.
  intros Hwf _ Hlen. unfold data_quality_score.
  rewrite (isna_count_no_rows Hwf Hlen). unfold size. rewrite Hlen.
  cbn [Nat.mul Z.of_nat Z.eqb]. exact_ops.
  rewrite xdiv_zero_zero. reflexivity.
Qed.

(** Witness for X8: a header without rows. *)
Lemma data_quality_score_no_rows_witness :
  data_quality_score (F := xreal) header_only = mkQualityScore NaN (Fin 100) NaN.
Proof.
  apply (@data_quality_score_no_rows header_only).
  - split; [repeat constructor; intros [] | repeat constructor].
  - discriminate.
  - reflexivity.
Defined.

Local Close Scope R_scope.

(** ** cleaning_insights.py: outlier detection on degenerate columns *)

Local Open Scope R_scope.

Lemma of_Q_exact (q : Q) :
  of_Q (F := xreal) q = Fin (IZR (Qnum q) / IZR (Zpos (Qden q))).
Proof.
  unfold of_Q. exact_ops. apply xdiv_fin. apply not_0_IZR. discriminate.
Qed.

Lemma Forall_eq_repeat {X : Type} (x : X) (l : list X) :
  Forall (fun y => y = x) l -> l = repeat x (length l).
Proof.
  induction 1 as [|y l Hy _ IH]; simpl; [reflexivity |]. now rewrite Hy, <- IH.
Qed.

Lemma nth_repeat_lt {X : Type} (x d : X) (n k : nat) :
  (k < n)%nat -> nth k (repeat x n) d = x.
Proof.
  revert k. induction n as [|n IH]; intros k Hk; [lia |].
  destruct k; simpl; [reflexivity |]. apply IH. lia.
Qed.

Lemma fsort_repeat (c : R) (n : nat) :
  fsort (F := xreal) (repeat (Fin c) n) = repeat (Fin c) n.
Proof.
  induction n as [|n IH]; [reflexivity |].
  change (fsort (repeat (Fin c) (S n)))
    with (finsert (F := xreal) (Fin c) (fsort (repeat (Fin c) n))).
  rewrite IH. destruct n; [reflexivity |].
  simpl. exact_ops. rewrite xleb_fin, Rleb_true by lra. reflexivity.
Qed.

Lemma lerp_same (c : R) (g : Q) :
  lerp (F := xreal) (Fin c) (Fin c) (of_Q g) = Fin c.
Proof.
  unfold lerp. rewrite !of_Q_exact. exact_ops. autorewrite with xreal.
  destruct (Rleb _ _); f_equal; ring.
Qed.

(** The floor of the virtual index stays within the series. *)
Lemma virtual_index_floor (m : Z) (q : Q) :
  (0 <= m)%Z -> (0 <= Qnum q <= Zpos (Qden q))%Z ->
  (0 <= Qfloor (inject_Z m * q) <= m)%Z.
Proof.
  intros Hm [Hq0 Hq1]. unfold Qfloor, Qmult, inject_Z. cbn [Qnum Qden].
  split.
  - apply Z.div_pos; [nia | lia].
  - apply Z.div_le_upper_bound; [lia |]. nia.
Qed.

Lemma quantile_repeat (c : R) (n : nat) (q : Q) :
  (1 <= n)%nat -> (0 <= Qnum q <= Zpos (Qden q))%Z ->
  quantile (F := xreal) (repeat (Fin c) n) q = Fin c.
Proof.
  intros Hn Hq. unfold quantile. rewrite fsort_repeat, repeat_length.
  pose proof (@virtual_index_floor (Z.of_nat n - 1) q ltac:(lia) Hq) as Hfl.
  set (previous := Qfloor _) in *.
  rewrite !nth_repeat_lt by lia.
  apply lerp_same.
Qed.

Lemma outliers_repeat (c : R) (n : nat) :
  outliers (F := xreal) (repeat (Fin c) n) (Fin c) (Fin c) = [].
Proof.
  unfold outliers. induction n as [|n IH]; [reflexivity |].
  simpl. exact_ops. rewrite xltb_fin, Rltb_false by lra. simpl. exact IH.
Qed.

(** X9: with the IQR method a series whose values are all equal to [c] has
    no outlier: both quartiles are [c], so both bounds are [c] (rounded to 4
    decimals) and no value lies strictly outside them. *)
Theorem outlier_stats_iqr_constant (c : R) (series : list xreal) :
  series <> [] -> Forall (fun x => x = Fin c) series ->
  outlier_stats "iqr" series
  = mkOutlierStats 0 (Fin 0) (xround 4 (Fin c)) (xround 4 (Fin c)).
Proof.
  intros Hne Hall. rewrite (Forall_eq_repeat Hall).
  assert (Hn : (1 <= length series)%nat) by (destruct series; [contradiction | simpl; lia]).
  set (n := length series) in *.
  unfold outlier_stats, outlier_bounds. cbn [String.eqb Ascii.eqb Bool.eqb].
  rewrite !quantile_repeat by (try exact Hn; vm_compute; split; discriminate).
  rewrite of_Q_exact. exact_ops. autorewrite with xreal.
  replace (c - IZR (Qnum 1.5) / IZR (Z.pos (Qden 1.5)) * (c - c)) with c by ring.
  replace (c + IZR (Qnum 1.5) / IZR (Z.pos (Qden 1.5)) * (c - c)) with c by ring.
  rewrite outliers_repeat. cbn [length Z.of_nat].
  rewrite repeat_length.
  rewrite xdiv_fin by (apply not_0_IZR; lia). rewrite xmul_fin.
  replace (0 / IZR (Z.of_nat n) * 100) with (IZR 0)
    by (field; apply not_0_IZR; lia).
  now rewrite xround_integer.
Qed.

(** Witness for X9: three readings equal to 7. *)
Lemma outlier_stats_iqr_constant_witness :
  outlier_stats "iqr" [Fin 7; Fin 7; Fin 7]
  = mkOutlierStats 0 (Fin 0) (xround 4 (Fin 7)) (xround 4 (Fin 7)).
Proof.
  apply (@outlier_stats_iqr_constant 7 [Fin 7; Fin 7; Fin 7]).
  - discriminate.
  - repeat constructor.
Defined.

Lemma fsum_single (c : R) : fsum (F := xreal) [Fin c] = Fin c.
Proof.
  change [Fin c] with (map Fin [c]). rewrite fsum_fin. f_equal. simpl. lra.
Qed.

Lemma mean_single (c : R) : mean (F := xreal) [Fin c] = Fin c.
Proof.
  unfold mean. rewrite fsum_single. exact_ops.
  change (IZR (Z.of_nat (length [Fin c]))) with 1.
  rewrite xdiv_fin by lra. f_equal. field.
Qed.

Lemma std_single (c : R) : std (F := xreal) [Fin c] = NaN.
Proof.
  unfold std. rewrite mean_single. cbn [map]. exact_ops.
  autorewrite with xreal. rewrite fsum_single.
  change (IZR (Z.of_nat (length [Fin c]) - 1)) with 0.
  replace ((c - c) * (c - c)) with 0 by ring.
  now rewrite xdiv_zero_zero.
Qed.

(** X10: with the z-score method (any method other than "iqr") a series of
    a single value has a standard deviation 0 / 0: both bounds are NaN and
    no value is counted as an outlier. *)
Theorem outlier_stats_zscore_single (method : string) (c : R) :
  String.eqb method "iqr" = false ->
  outlier_stats method [Fin c] = mkOutlierStats 0 (Fin 0) NaN NaN.
Proof.
  intros Hm. unfold outlier_stats, outlier_bounds. rewrite Hm.
  rewrite mean_single, std_single. exact_ops.
  change (xmul (Fin 3) NaN) with NaN.
  change (xsub (Fin c) NaN) with NaN. change (xadd (Fin c) NaN) with NaN.
  change (outliers [Fin c] NaN NaN) with (@nil xreal).
  cbn [length Z.of_nat].
  change (IZR (Z.pos (Pos.of_succ_nat 0))) with 1.
  rewrite xdiv_fin by lra. rewrite xmul_fin.
  replace (0 / 1 * 100) with (IZR 0) by field.
  now rewrite xround_integer.
Qed.

(** Witness for X10: the method "zscore" and the single reading 7. *)
Lemma outlier_stats_zscore_single_witness :
  outlier_stats "zscore" [Fin 7] = mkOutlierStats 0 (Fin 0) NaN NaN.
Proof.
  apply (@outlier_stats_zscore_single "zscore" 7). reflexivity.
Defined.

Local Close Scope R_scope.

(** ** data_loader.py: which arguments reach the readers *)

Lemma string_in_cons (x y : string) (l : list string) :
  string_in x (y :: l) = String.eqb x y || string_in x l.
Proof. reflexivity. Qed.

(** X11: the sheet name matters for Excel files only, where the empty name
    selects the first sheet like no name at all; and the encoding matters
    for the text formats only (CSV, TSV, TXT, JSON, JSONL). *)
Theorem load_data_ignored_arguments (env : Environment) (p : Path)
    (enc enc' : string) (sh sh' : option string) :
  (excel_suffix p = false -> load_data env p enc sh = load_data env p enc sh') /\
  load_data env p enc (Some EmptyString) = load_data env p enc None /\
  (text_suffix p = false -> load_data env p enc sh = load_data env p enc' sh).
Proof.
  unfold excel_suffix, text_suffix, load_data.
  destruct (path_exists env p); cbn [negb]; [| repeat split; reflexivity].
  set (sfx := lower (suffix p)).
  rewrite !string_in_cons. cbn [string_in existsb].
  destruct (String.eqb sfx ".csv"); cbn [orb];
    [repeat split; try reflexivity; discriminate |].
  destruct (String.eqb sfx ".tsv"); cbn [orb];
    [repeat split; try reflexivity; discriminate |].
  destruct (String.eqb sfx ".txt"); cbn [orb];
    [repeat split; try reflexivity; discriminate |].
  destruct (String.eqb sfx ".xlsx"); cbn [orb];
    [repeat split; try reflexivity; discriminate |].
  destruct (String.eqb sfx ".xls"); cbn [orb];
    [repeat split; try reflexivity; discriminate |].
  destruct (String.eqb sfx ".json") eqn:Ej; cbn [orb];
    [repeat split; try reflexivity; discriminate |].
  destruct (String.eqb sfx ".jsonl"); cbn [orb];
    [repeat split; try reflexivity; discriminate |].
  repeat split; reflexivity.
Qed.

(** ** cleaning_insights.py: the summary of missing values *)

Lemma insert_desc_permutation {F : Type} {A : Arith F}
    (r : MissingRow F) (l : list (MissingRow F)) :
  Permutation (insert_desc r l) (r :: l).
Proof.
  induction l as [|r' l IH]; simpl; [reflexivity |].
  destruct (sorts_before _ _); [reflexivity |].
  rewrite IH. apply perm_swap.
Qed.

Lemma sort_values_desc_permutation {F : Type} {A : Arith F}
    (l : list (MissingRow F)) :
  Permutation (sort_values_desc l) l.
Proof.
  induction l as [|r l IH]; simpl; [reflexivity |].
  rewrite insert_desc_permutation. now constructor.
Qed.

Lemma isna_count_columns (df : DataFrame) :
  isna_count df = zsum (map isna_sum (columns df)).
Proof. reflexivity. Qed.

Lemma zsum_permutation (l l' : list Z) : Permutation l l' -> zsum l = zsum l'.
Proof. induction 1; simpl; lia. Qed.

Lemma isna_sum_bounds (df : DataFrame) (s : Series) :
  well_formed df -> In s (columns df) ->
  (0 <= isna_sum s <= Z.of_nat (index_len df))%Z.
Proof.
  intros [_ Hlen] Hin. rewrite Forall_forall in Hlen.
  specialize (Hlen s Hin). unfold isna_sum.
  pose proof (filter_length_le (fun c => cell_eqb c None) (values s)). lia.
Qed.

(** X12: the summary of missing values has one row per column of the table
    (a rearrangement of the columns), each count lies between 0 and the
    number of rows, and the counts add up to the number of missing cells
    that [data_quality_score] uses. *)
Theorem missing_value_summary_counts {F : Type} {A : Arith F} {Rd : Rounding F}
    (df : DataFrame) :
  well_formed df ->
  Permutation (map (@column F) (missing_value_summary df)) (map name (columns df)) /\
  Forall (fun r => (0 <= missing_count r <= Z.of_nat (index_len df))%Z)
         (missing_value_summary (F := F) df) /\
  zsum (map (@missing_count F) (missing_value_summary df)) = isna_count df.
Proof.
  intros Hwf. unfold missing_value_summary.
  pose proof (sort_values_desc_permutation (map (missing_row (F := F) df) (columns df))) as HP.
  split; [| split].
  - rewrite (Permutation_map (@column F) HP), map_map. reflexivity.
  - apply (Permutation_Forall (Permutation_sym HP)).
    rewrite Forall_map, Forall_forall. intros s Hs.
    cbn [missing_row missing_count]. now apply isna_sum_bounds.
  - rewrite (zsum_permutation (Permutation_map (@missing_count F) HP)), map_map.
    reflexivity.
Qed.

Lemma missing_value_summary_counts_witness :
  well_formed readings /\
  zsum (map (@missing_count xreal) (missing_value_summary readings))
  = isna_count readings.
Proof.
  assert (W : well_formed readings).
  { split; [repeat constructor; simpl; intuition discriminate
           | repeat constructor]. }
  split; [exact W |].
  apply (missing_value_summary_counts (F := xreal) W).
Defined.

Local Open Scope R_scope.

Lemma missing_percent_exact (df : DataFrame) (s : Series) :
  index_len df <> 0%nat ->
  missing_percent (missing_row (F := xreal) df s)
  = xround 2 (Fin (IZR (isna_sum s) / IZR (Z.of_nat (index_len df)) * 100)).
Proof.
  intros Hlen. cbn [missing_row missing_percent]. exact_ops.
  rewrite xdiv_fin, xmul_fin; [reflexivity |].
  apply not_0_IZR. lia.
Qed.

Lemma missing_percent_range (df : DataFrame) (s : Series) :
  well_formed df -> index_len df <> 0%nat -> In s (columns df) ->
  exists p, missing_percent (missing_row (F := xreal) df s) = Fin p /\ 0 <= p <= 100.
Proof.
  intros Hwf Hlen Hin. rewrite (@missing_percent_exact df s Hlen).
  apply (@xround_range 2 _ 100).
  destruct (@isna_sum_bounds df s Hwf Hin) as [H0 H1].
  apply IZR_le in H0, H1.
  assert (HL : 0 < IZR (Z.of_nat (index_len df))) by (apply IZR_lt; lia).
  set (m := IZR (isna_sum s)) in *. set (n := IZR (Z.of_nat (index_len df))) in *.
  assert (0 <= m / n <= 1).
  { split; [apply Rmult_le_pos; [lra | left; now apply Rinv_0_lt_compat] |].
    apply (Rmult_le_reg_r n); [lra |]. unfold Rdiv.
    rewrite Rmult_assoc, Rinv_l; lra. }
  lra.
Qed.

Lemma sorts_before_fin (a b : R) :
  sorts_before (Fin a) (Fin b) = Rleb b a.
Proof.
  unfold sorts_before, isnan. exact_ops. rewrite xeqb_fin, xleb_fin.
  rewrite Reqb_true by reflexivity. reflexivity.
Qed.

Lemma insert_desc_sorted (r : MissingRow xreal) (l : list (MissingRow xreal)) :
  finite (missing_percent r) ->
  Forall (fun r' => finite (missing_percent r')) l ->
  StronglySorted (fun a b => xval (missing_percent b) <= xval (missing_percent a)) l ->
  StronglySorted (fun a b => xval (missing_percent b) <= xval (missing_percent a))
                 (insert_desc r l).
Proof.
  intros Hr Hl Hs. induction l as [|r' l IH]; simpl.
  - repeat constructor.
  - inversion Hl as [|? ? Hr' Hl']; subst.
    inversion Hs as [|? ? Hs' Hall]; subst.
    rewrite Hr, Hr', sorts_before_fin. unfold Rleb.
    destruct (Rle_dec _ _) as [Hle | Hgt].
    + constructor; [exact Hs |]. constructor; [exact Hle |].
      rewrite Forall_forall in Hall |- *. intros x Hx.
      specialize (Hall x Hx). lra.
    + constructor; [now apply IH |].
      apply (Permutation_Forall (Permutation_sym (insert_desc_permutation r l))).
      constructor; [lra | exact Hall].
Qed.

Lemma sort_values_desc_sorted (l : list (MissingRow xreal)) :
  Forall (fun r => finite (missing_percent r)) l ->
  StronglySorted (fun a b => xval (missing_percent b) <= xval (missing_percent a))
                 (sort_values_desc l).
Proof.
  induction 1 as [|r l Hr Hl IH]; simpl; [constructor |].
  apply insert_desc_sorted; [exact Hr | | exact IH].
  apply (Permutation_Forall (Permutation_sym (sort_values_desc_permutation l))).
  exact Hl.
Qed.

(** X13: on a well-formed table with at least one row every percentage of
    the summary is, in exact arithmetic, a number between 0 and 100, and the
    rows come in descending order of that percentage. *)
Theorem missing_value_summary_sorted (df : DataFrame) :
  well_formed df -> index_len df <> 0%nat ->
  Forall (fun r => exists p, missing_percent r = Fin p /\ 0 <= p <= 100)
         (missing_value_summary (F := xreal) df) /\
  StronglySorted (fun a b => xval (missing_percent b) <= xval (missing_percent a))
                 (missing_value_summary (F := xreal) df).
Proof.
  intros Hwf Hlen. unfold missing_value_summary.
  assert (HR : Forall (fun r => exists p, missing_percent r = Fin p /\ 0 <= p <= 100)
                      (map (missing_row (F := xreal) df) (columns df))).
  { rewrite Forall_map, Forall_forall. intros s Hs.
    now apply missing_percent_range. }
  split.
  - apply (Permutation_Forall (Permutation_sym (sort_values_desc_permutation _))).
    exact HR.
  - apply sort_values_desc_sorted.
    eapply Forall_impl; [| exact HR].
    intros r [p [E _]]. unfold finite. now rewrite E.
Qed.

Lemma missing_value_summary_sorted_witness :
  well_formed readings /\ index_len readings <> 0%nat /\
  StronglySorted (fun a b => xval (missing_percent b) <= xval (missing_percent a))
                 (missing_value_summary (F := xreal) readings).
Proof.
  assert (W : well_formed readings).
  { split; [repeat constructor; simpl; intuition discriminate
           | repeat constructor]. }
  assert (L : index_len readings <> 0%nat) by (simpl; discriminate).
  split; [exact W |]. split; [exact L |].
  apply (missing_value_summary_sorted W L).
Defined.

Lemma insert_desc_nan (r : MissingRow xreal) (l : list (MissingRow xreal)) :
  Forall (fun r' => missing_percent r' = NaN) l ->
  missing_percent r = NaN ->
  insert_desc r l = r :: l.
Proof.
  intros Hl Hr. destruct l as [|r' l]; [reflexivity |].
  inversion Hl as [|? ? Hr' _]; subst. simpl. now rewrite Hr, Hr'.
Qed.

(** X14: on a well-formed table without rows every percentage is 0 / 0:
    the summary lists the columns in their order in the table, each with
    count 0 and percentage NaN. *)
Theorem missing_value_summary_no_rows (df : DataFrame) :
  well_formed df -> index_len df = 0%nat ->
  missing_value_summary (F := xreal) df
  = map (fun s => mkMissingRow (name s) 0%Z NaN (dtype_name (dtype s))) (columns df).
Proof.
  intros Hwf Hlen. unfold missing_value_summary.
  assert (E : map (missing_row (F := xreal) df) (columns df)
              = map (fun s => mkMissingRow (name s) 0%Z NaN (dtype_name (dtype s)))
                    (columns df)).
  { apply map_ext_in. intros s Hs.
    pose proof (@isna_sum_bounds df s Hwf Hs) as Hb. rewrite Hlen in Hb.
    assert (E0 : isna_sum s = 0%Z) by (simpl in Hb; lia).
    unfold missing_row. rewrite E0, Hlen. exact_ops.
    cbn [Z.of_nat]. rewrite xdiv_zero_zero. reflexivity. }
  rewrite E. clear E.
  induction (columns df) as [|s cs IH]; [reflexivity |].
  cbn [map sort_values_desc fold_right].
  change (fold_right insert_desc [] ?l) with (sort_values_desc l).
  unfold sort_values_desc in IH |- *. rewrite IH.
  apply insert_desc_nan; [| reflexivity].
  rewrite Forall_map, Forall_forall. intros; reflexivity.
Qed.

Lemma missing_value_summary_no_rows_witness :
  well_formed header_only /\ index_len header_only = 0%nat /\
  map (@missing_percent xreal) (missing_value_summary header_only)
  = map (fun _ => NaN) (columns header_only).
Proof.
  assert (W : well_formed header_only).
  { split; [repeat constructor; simpl; intuition discriminate
           | repeat constructor]. }
  split; [exact W |]. split; [reflexivity |].
  rewrite (missing_value_summary_no_rows W eq_refl), map_map. reflexivity.
Defined.

Local Close Scope R_scope.

(** ** correlation_analysis.py: the entries of the numeric matrix *)

Local Open Scope R_scope.

Lemma valid_pairs_exact (xs ys : list cell) :
  valid_pairs (F := xreal) xs ys
  = map (fun p => (Fin (fst p), Fin (snd p))) (real_pairs xs ys).
Proof.
  unfold valid_pairs, real_pairs.
  induction (combine xs ys) as [|[a b] l IH]; [reflexivity |].
  cbn [flat_map fst snd]. rewrite IH, map_app. f_equal.
  rewrite !to_float_exact.
  destruct (cell_real a), (cell_real b); reflexivity.
Qed.

Lemma real_pairs_in (xs ys : list cell) (p : R * R) :
  In p (real_pairs xs ys) ->
  In (fst p) (real_values xs) /\ In (snd p) (real_values ys).
Proof.
  unfold real_pairs, real_values. revert ys.
  induction xs as [|a xs IH]; intros ys Hin; [contradiction |].
  destruct ys as [|b ys]; [contradiction |].
  cbn [combine flat_map fst snd] in Hin |- *.
  apply in_app_or in Hin. destruct Hin as [Hin | Hin].
  - destruct (cell_real a) as [x|]; [| contradiction].
    destruct (cell_real b) as [y|]; [| contradiction].
    destruct Hin as [E | []]. subst p. split; apply in_or_app; left; now left.
  - destruct (IH ys Hin) as [H1 H2]. split; apply in_or_app; now right.
Qed.

Lemma mean_fin (l : list R) :
  l <> [] ->
  mean (F := xreal) (map Fin l) = Fin (Rsum l / IZR (Z.of_nat (length l))).
Proof.
  intros Hl. unfold mean. rewrite fsum_fin, length_map. exact_ops.
  rewrite xdiv_fin; [reflexivity |].
  apply not_0_IZR. destruct l; [congruence | simpl length; lia].
Qed.

(** Pearson's coefficient of the model, over the reals. *)
Lemma pearson_exact (xs ys : list cell) :
  pearson (F := xreal) xs ys
  = let ps := real_pairs xs ys in
    match ps with
    | [] => NaN
    | _ =>
        let d := sqrt (co_moment ps fst fst * co_moment ps snd snd) in
        if Reqb d 0 then NaN else Fin (co_moment ps fst snd / d)
    end.
Proof.
  unfold pearson. rewrite valid_pairs_exact, length_map.
  set (ps := real_pairs xs ys). cbv zeta.
  destruct ps as [|p0 ps'] eqn:Eps.
  - simpl. unfold fnan. exact_ops. apply xdiv_zero_zero.
  - rewrite <- Eps.
    assert (Hne : ps <> []) by (rewrite Eps; discriminate).
    assert (Hlen : (length ps <? 1)%nat = false) by (rewrite Eps; reflexivity).
    rewrite Hlen, !map_map. cbn [fst snd].
    rewrite <- (map_map fst Fin), <- (map_map snd Fin).
    rewrite !mean_fin
      by (intros E; apply Hne; destruct ps; [reflexivity | discriminate]).
    rewrite !length_map.
    change (Rsum (map fst ps)) with (Rsum_over ps fst).
    change (Rsum (map snd ps)) with (Rsum_over ps snd).
    set (n := IZR (Z.of_nat (length ps))).
    set (mx := Rsum_over ps fst / n). set (my := Rsum_over ps snd / n).
    assert (E : forall f g : R * R -> R, forall a b : R,
               fsum (F := xreal)
                 (map (fun p => fmul (fsub (Fin (f p)) (Fin a)) (fsub (Fin (g p)) (Fin b))) ps)
               = Fin (Rsum_over ps (fun p => (f p - a) * (g p - b)))).
    { intros f g a b.
      rewrite (map_ext _ (fun p => Fin ((f p - a) * (g p - b))))
        by (intros; reflexivity).
      rewrite <- (map_map (fun p => (f p - a) * (g p - b)) Fin), fsum_fin.
      reflexivity. }
    rewrite (E fst fst mx mx), (E snd snd my my), (E fst snd mx my).
    change (Rsum_over ps (fun p => (fst p - mx) * (fst p - mx)))
      with (co_moment ps fst fst).
    change (Rsum_over ps (fun p => (snd p - my) * (snd p - my)))
      with (co_moment ps snd snd).
    change (Rsum_over ps (fun p => (fst p - mx) * (snd p - my)))
      with (co_moment ps fst snd).
    assert (H0 : 0 <= co_moment ps fst fst * co_moment ps snd snd).
    { apply Rmult_le_pos; apply Rsum_over_nonneg; intros; apply Rle_0_sqr. }
    exact_ops. rewrite xmul_fin, xsqrt_fin by exact H0. rewrite xeqb_fin.
    set (d := sqrt (co_moment ps fst fst * co_moment ps snd snd)).
    destruct (Req_dec_T d 0) as [Ed | Ed].
    + rewrite !Reqb_true by exact Ed. unfold fnan. exact_ops. apply xdiv_zero_zero.
    + rewrite !Reqb_false by exact Ed. now rewrite xdiv_fin.
Qed.

(** Cauchy and Schwarz. *)
Lemma Rsum_over_product_sq {X : Type} (l : list X) (u v : X -> R) :
  Rsum_over l (fun a => u a * v a) * Rsum_over l (fun a => u a * v a)
  <= Rsum_over l (fun a => u a * u a) * Rsum_over l (fun a => v a * v a).
Proof.
  set (A := Rsum_over l (fun a => u a * u a)).
  set (B := Rsum_over l (fun a => v a * v a)).
  set (C := Rsum_over l (fun a => u a * v a)).
  assert (HA : 0 <= A) by (apply Rsum_over_nonneg; intros; apply Rle_0_sqr).
  assert (HB : 0 <= B) by (apply Rsum_over_nonneg; intros; apply Rle_0_sqr).
  assert (Hq : forall t, 0 <= t * t * A + 2 * t * C + B).
  { intros t.
    replace (t * t * A + 2 * t * C + B)
      with (Rsum_over l (fun a => (t * u a + v a) * (t * u a + v a))).
    - apply Rsum_over_nonneg. intros; apply Rle_0_sqr.
    - rewrite (Rsum_over_ext l _
                 (fun a => t * t * (u a * u a) + (2 * t * (u a * v a) + v a * v a)))
        by (intros; ring).
      rewrite Rsum_over_add, Rsum_over_add, !Rsum_over_scal.
      fold A B C. ring. }
  destruct (Req_dec_T A 0) as [E0 | E0].
  - assert (Hu : forall a, In a l -> u a = 0).
    { intros a Ha.
      assert (Hz : u a * u a = 0).
      { apply (Rsum_over_zero_inv l (fun a => u a * u a) a);
          [intros; apply Rle_0_sqr | exact E0 | exact Ha]. }
      apply Rmult_integral in Hz. lra. }
    assert (EC : C = 0).
    { unfold C. apply Rsum_over_zero. intros a Ha. rewrite (Hu a Ha). ring. }
    rewrite EC, E0. lra.
  - assert (HApos : 0 < A) by lra.
    pose proof (Hq (- C / A)) as H.
    assert (Et : - C / A * A = - C) by (field; lra).
    assert (H' : 0 <= A * (- C / A * (- C / A) * A + 2 * (- C / A) * C + B))
      by (apply Rmult_le_pos; lra).
    replace (A * (- C / A * (- C / A) * A + 2 * (- C / A) * C + B))
      with ((- C / A * A) * (- C / A * A) + 2 * (- C / A * A) * C + A * B) in H'
      by ring.
    rewrite Et in H'. lra.
Qed.

Lemma co_moment_bound (ps : list (R * R)) :
  co_moment ps fst snd * co_moment ps fst snd
  <= co_moment ps fst fst * co_moment ps snd snd.
Proof. unfold co_moment. apply Rsum_over_product_sq. Qed.

Lemma pearson_range (xs ys : list cell) :
  pearson (F := xreal) xs ys = NaN \/
  exists v, pearson (F := xreal) xs ys = Fin v /\ -1 <= v <= 1.
Proof.
  rewrite pearson_exact. cbv zeta.
  destruct (real_pairs xs ys) as [|p0 ps'] eqn:Eps; [now left |].
  rewrite <- Eps. set (ps := real_pairs xs ys).
  set (A := co_moment ps fst fst). set (B := co_moment ps snd snd).
  set (C := co_moment ps fst snd).
  destruct (Req_dec_T (sqrt (A * B)) 0) as [Ed | Ed].
  - rewrite Reqb_true by exact Ed. now left.
  - rewrite Reqb_false by exact Ed. right. eexists. split; [reflexivity |].
    assert (H0 : 0 <= A * B).
    { apply Rmult_le_pos; apply Rsum_over_nonneg; intros; apply Rle_0_sqr. }
    pose proof (co_moment_bound ps) as HCS. fold A B C in HCS.
    pose proof (sqrt_pos (A * B)) as Hd0.
    pose proof (sqrt_sqrt (A * B) H0) as Hdd.
    set (d := sqrt (A * B)) in *.
    assert (Hd : 0 < d) by lra.
    assert (Hup : C <= d) by nra.
    assert (Hlo : - d <= C) by nra.
    split.
    + apply (Rmult_le_reg_r d); [exact Hd |].
      unfold Rdiv. rewrite Rmult_assoc, Rinv_l by lra. lra.
    + apply (Rmult_le_reg_r d); [exact Hd |].
      unfold Rdiv. rewrite Rmult_assoc, Rinv_l by lra. lra.
Qed.

Lemma numeric_correlation_labels {F : Type} {A : Arith F} (df : DataFrame) :
  labels (numeric_correlation (F := F) df) = get_numeric_columns df.
Proof.
  unfold numeric_correlation.
  destruct (get_numeric_columns df) eqn:E; reflexivity.
Qed.

Lemma numeric_correlation_entry {F : Type} {A : Arith F} (df : DataFrame)
    (d : F) (i j : nat) :
  (i < length (get_numeric_columns df))%nat ->
  (j < length (get_numeric_columns df))%nat ->
  entry d (numeric_correlation df) i j
  = pearson (values (getitem df (nth (Nat.max i j) (get_numeric_columns df) EmptyString)))
            (values (getitem df (nth (Nat.min i j) (get_numeric_columns df) EmptyString))).
Proof.
  intros Hi Hj.
  destruct (numeric_correlation_cases (F := F) df) as [[E _] | [_ E]].
  - rewrite E in Hi. inversion Hi.
  - rewrite E. now apply corr_entry.
Qed.

(** X15: in exact arithmetic every entry of the numeric correlation matrix
    is NaN or a number between -1 and 1. *)
Theorem numeric_correlation_entries (df : DataFrame) (i j : nat) :
  (i < length (labels (numeric_correlation (F := xreal) df)))%nat ->
  (j < length (labels (numeric_correlation (F := xreal) df)))%nat ->
  entry NaN (numeric_correlation (F := xreal) df) i j = NaN \/
  exists v, entry NaN (numeric_correlation (F := xreal) df) i j = Fin v /\
            -1 <= v <= 1.
Proof.
  rewrite numeric_correlation_labels. intros Hi Hj.
  rewrite (numeric_correlation_entry df NaN Hi Hj).
  apply pearson_range.
Qed.

Lemma numeric_correlation_entries_witness :
  (1 < length (labels (numeric_correlation (F := xreal) readings)))%nat /\
  (0 < length (labels (numeric_correlation (F := xreal) readings)))%nat /\
  (entry NaN (numeric_correlation (F := xreal) readings) 1 0 = NaN \/
   exists v, entry NaN (numeric_correlation (F := xreal) readings) 1 0 = Fin v /\
             -1 <= v <= 1).
Proof.
  assert (H1 : (1 < length (labels (numeric_correlation (F := xreal) readings)))%nat)
    by (vm_compute; lia).
  assert (H0 : (0 < length (labels (numeric_correlation (F := xreal) readings)))%nat)
    by (vm_compute; lia).
  split; [exact H1 |]. split; [exact H0 |].
  apply (numeric_correlation_entries readings H1 H0).
Defined.

Lemma co_moment_constant (ps : list (R * R)) (f : R * R -> R) (c : R) :
  (forall p, In p ps -> f p = c) -> co_moment ps f f = 0.
Proof.
  intros Hc. unfold co_moment. apply Rsum_over_zero. intros p Hp.
  assert (Em : Rsum_over ps f / IZR (Z.of_nat (length ps)) = c).
  { rewrite (Rsum_over_ext ps f (fun _ => c)) by exact Hc.
    rewrite Rsum_over_const, INR_IZR_INZ. field.
    apply not_0_IZR. destruct ps; [contradiction | simpl length; lia]. }
  rewrite Em, (Hc p Hp). ring.
Qed.

Lemma not_varies_constant (xs : list cell) :
  ~ varies xs -> exists c, forall x, In x (real_values xs) -> x = c.
Proof.
  intros Hnv. destruct (real_values xs) as [|c l] eqn:E.
  - exists 0. intros x [].
  - exists c. intros x Hx.
    destruct (Req_dec_T x c) as [Ex | Ex]; [exact Ex |].
    exfalso. apply Hnv. exists x, c. rewrite E.
    split; [exact Hx |]. split; [now left | exact Ex].
Qed.

Lemma pearson_constant (xs ys : list cell) :
  ~ varies xs ->
  pearson (F := xreal) xs ys = NaN /\ pearson (F := xreal) ys xs = NaN.
Proof.
  intros Hnv. destruct (not_varies_constant Hnv) as [c Hc].
  split; rewrite pearson_exact; cbv zeta.
  - destruct (real_pairs xs ys) as [|p0 ps'] eqn:Eps; [reflexivity |].
    rewrite <- Eps.
    rewrite (@co_moment_constant (real_pairs xs ys) fst c).
    + rewrite Rmult_0_l, sqrt_0, Reqb_true; reflexivity.
    + intros p Hp. apply Hc. now apply (real_pairs_in xs ys).
  - destruct (real_pairs ys xs) as [|p0 ps'] eqn:Eps; [reflexivity |].
    rewrite <- Eps.
    rewrite (@co_moment_constant (real_pairs ys xs) snd c).
    + rewrite Rmult_0_r, sqrt_0, Reqb_true; reflexivity.
    + intros p Hp. apply Hc. now apply (real_pairs_in ys xs).
Qed.

(** X16: a numeric column that holds at most one distinct number makes its
    whole row and its whole column of the numeric correlation matrix NaN,
    in exact arithmetic, whatever the other column is. *)
Theorem numeric_correlation_constant_column (df : DataFrame) (i j : nat) :
  (i < length (get_numeric_columns df))%nat ->
  (j < length (get_numeric_columns df))%nat ->
  ~ varies (values (getitem df (nth i (get_numeric_columns df) EmptyString))) ->
  entry NaN (numeric_correlation (F := xreal) df) i j = NaN /\
  entry NaN (numeric_correlation (F := xreal) df) j i = NaN.
Proof.
  intros Hi Hj Hnv.
  rewrite (numeric_correlation_entry df NaN Hi Hj),
          (numeric_correlation_entry df NaN Hj Hi).
  rewrite (Nat.max_comm j i), (Nat.min_comm j i).
  assert (H : pearson (F := xreal)
                (values (getitem df (nth (Nat.max i j) (get_numeric_columns df) EmptyString)))
                (values (getitem df (nth (Nat.min i j) (get_numeric_columns df) EmptyString)))
              = NaN).
  { destruct (Nat.le_ge_cases i j) as [Hle | Hge].
    - rewrite (Nat.max_r _ _ Hle), (Nat.min_l _ _ Hle).
      apply (pearson_constant _ Hnv).
    - rewrite (Nat.max_l _ _ Hge), (Nat.min_r _ _ Hge).
      apply (pearson_constant _ Hnv). }
  split; exact H.
Qed.

Local Close Scope R_scope.

Lemma numeric_correlation_constant_column_witness :
  ~ varies (values (getitem readings
                      (nth 1 (get_numeric_columns readings) EmptyString))) /\
  entry NaN (numeric_correlation (F := xreal) readings) 1 0 = NaN /\
  entry NaN (numeric_correlation (F := xreal) readings) 0 1 = NaN.
Proof.
  assert (Hnv : ~ varies (values (getitem readings
                                    (nth 1 (get_numeric_columns readings) EmptyString)))).
  { intros (x & y & Hx & _). vm_compute in Hx. exact Hx. }
  split; [exact Hnv |].
  apply (@numeric_correlation_constant_column readings 1 0);
    [vm_compute; lia | vm_compute; lia | exact Hnv].
Defined.

(** ** cleaning_insights.py: the quartiles and the IQR bounds *)

Local Open Scope R_scope.

Lemma finsert_fin (x : R) (s : list R) :
  finsert (F := xreal) (Fin x) (map Fin s) = map Fin (Rinsert x s).
Proof.
  induction s as [|y s IH]; [reflexivity |].
  cbn [map finsert Rinsert]. exact_ops. rewrite xleb_fin.
  destruct (Rleb x y); [reflexivity |].
  cbn [map]. f_equal. exact IH.
Qed.

Lemma fsort_fin (l : list R) :
  fsort (F := xreal) (map Fin l) = map Fin (Rsort l).
Proof.
  induction l as [|x l IH]; [reflexivity |].
  cbn [map]. unfold fsort, Rsort in *. cbn [fold_right].
  rewrite IH. apply finsert_fin.
Qed.

Lemma Rinsert_permutation (x : R) (l : list R) : Permutation (Rinsert x l) (x :: l).
Proof.
  induction l as [|y l IH]; simpl; [reflexivity |].
  destruct (Rleb x y); [reflexivity |].
  rewrite IH. apply perm_swap.
Qed.

Lemma Rsort_permutation (l : list R) : Permutation (Rsort l) l.
Proof.
  induction l as [|x l IH]; simpl; [reflexivity |].
  rewrite Rinsert_permutation. now constructor.
Qed.

Lemma Rsort_length (l : list R) : length (Rsort l) = length l.
Proof. apply Permutation_length, Rsort_permutation. Qed.

Lemma Rinsert_sorted (x : R) (l : list R) :
  StronglySorted Rle l -> StronglySorted Rle (Rinsert x l).
Proof.
  induction 1 as [|y l Hs IH Hall]; simpl; [repeat constructor |].
  unfold Rleb. destruct (Rle_dec x y) as [Hle | Hgt].
  - constructor; [now constructor |]. constructor; [exact Hle |].
    rewrite Forall_forall in Hall |- *. intros z Hz. specialize (Hall z Hz). lra.
  - constructor; [exact IH |].
    apply (Permutation_Forall (Permutation_sym (Rinsert_permutation x l))).
    constructor; [lra | exact Hall].
Qed.

Lemma Rsort_sorted (l : list R) : StronglySorted Rle (Rsort l).
Proof.
  induction l as [|x l IH]; simpl; [constructor |]. now apply Rinsert_sorted.
Qed.

Lemma sorted_nth (s : list R) (i j : nat) :
  StronglySorted Rle s -> (i <= j < length s)%nat -> nth i s 0 <= nth j s 0.
Proof.
  intros Hs. revert i j. induction Hs as [|x s Hs IH Hall]; intros i j [Hij Hj].
  - simpl in Hj. lia.
  - destruct j as [|j].
    + assert (i = 0%nat) by lia. subst. lra.
    + destruct i as [|i].
      * simpl. rewrite Forall_forall in Hall. apply Hall, nth_In.
        simpl in Hj. lia.
      * simpl. apply IH. simpl in Hj. lia.
Qed.

Lemma Q2R_inject_Z (z : Z) : Q2R (inject_Z z) = IZR z.
Proof. unfold Q2R, inject_Z. cbn [Qnum Qden]. field. Qed.

Lemma of_Q_Q2R (q : Q) : of_Q (F := xreal) q = Fin (Q2R q).
Proof. rewrite of_Q_exact. reflexivity. Qed.

(** The fraction of the virtual index. *)
Lemma virtual_index_fraction (x : Q) : 0 <= Q2R x - IZR (Qfloor x) < 1.
Proof.
  pose proof (Qfloor_le x) as H1. pose proof (Qlt_floor x) as H2.
  apply Qle_Rle in H1. apply Qlt_Rlt in H2.
  rewrite Q2R_inject_Z in H1, H2. rewrite plus_IZR in H2. lra.
Qed.

Lemma unit_fraction (q : Q) :
  (0 <= q)%Q -> (q <= 1)%Q -> (0 <= Qnum q <= Zpos (Qden q))%Z.
Proof. unfold Qle. cbn [Qnum Qden]. lia. Qed.

Lemma quantile_exact (l : list R) (q : Q) :
  l <> [] -> (0 <= q)%Q -> (q <= 1)%Q ->
  quantile (F := xreal) (map Fin l) q = Fin (quantile_real l q).
Proof.
  intros Hl Hq0 Hq1. unfold quantile, quantile_real.
  rewrite fsort_fin, length_map.
  assert (Hn : (1 <= length l)%nat) by (destruct l; [congruence | simpl; lia]).
  set (m := (Z.of_nat (length l) - 1)%Z).
  pose proof (@virtual_index_floor m q ltac:(unfold m; lia) (unit_fraction Hq0 Hq1)) as Hk.
  set (vi := (inject_Z m * q)%Q) in *. set (k := Qfloor vi) in *.
  assert (Hlen : forall i, (0 <= i <= m)%Z -> (Z.to_nat i < length (Rsort l))%nat).
  { intros i Hi. rewrite Rsort_length. unfold m in Hi. lia. }
  rewrite (nth_indep (map Fin (Rsort l)) fnan (Fin 0))
    by (rewrite length_map; apply Hlen; lia).
  rewrite (nth_indep (map Fin (Rsort l)) fnan (Fin 0) (n := Z.to_nat (Z.min (k + 1) m)))
    by (rewrite length_map; apply Hlen; lia).
  rewrite !(map_nth Fin).
  set (a := nth (Z.to_nat k) (Rsort l) 0).
  set (b := nth (Z.to_nat (Z.min (k + 1) m)) (Rsort l) 0).
  assert (Eg : Q2R (Qred (vi - inject_Z k)) = Q2R vi - IZR k).
  { rewrite (Qeq_eqR _ _ (Qred_correct _)), Q2R_minus, Q2R_inject_Z. reflexivity. }
  unfold lerp. rewrite !of_Q_Q2R, Eg. exact_ops. autorewrite with xreal.
  destruct (Rleb _ _); f_equal; ring.
Qed.

Lemma quantile_real_between (l : list R) (q : Q) :
  l <> [] -> (0 <= q)%Q -> (q <= 1)%Q ->
  let m := (Z.of_nat (length l) - 1)%Z in
  let k := Qfloor (inject_Z m * q) in
  (0 <= k <= m)%Z /\
  nth (Z.to_nat k) (Rsort l) 0 <= quantile_real l q
  <= nth (Z.to_nat (Z.min (k + 1) m)) (Rsort l) 0.
Proof.
  intros Hl Hq0 Hq1 m k.
  assert (Hn : (1 <= length l)%nat) by (destruct l; [congruence | simpl; lia]).
  pose proof (@virtual_index_floor m q ltac:(unfold m; lia) (unit_fraction Hq0 Hq1)) as Hk.
  fold k in Hk. split; [exact Hk |].
  unfold quantile_real. fold m. fold k.
  pose proof (virtual_index_fraction (inject_Z m * q)) as Hg. fold k in Hg.
  set (g := Q2R (inject_Z m * q) - IZR k) in *.
  assert (Hab : nth (Z.to_nat k) (Rsort l) 0
                <= nth (Z.to_nat (Z.min (k + 1) m)) (Rsort l) 0).
  { apply sorted_nth; [apply Rsort_sorted |]. rewrite Rsort_length. unfold m in *. lia. }
  set (a := nth (Z.to_nat k) (Rsort l) 0) in *.
  set (b := nth (Z.to_nat (Z.min (k + 1) m)) (Rsort l) 0) in *.
  split; nra.
Qed.

(** The quantile grows with its level. *)
Lemma quantile_real_mono (l : list R) (q q' : Q) :
  l <> [] -> (0 <= q)%Q -> (q <= q')%Q -> (q' <= 1)%Q ->
  quantile_real l q <= quantile_real l q'.
Proof.
  intros Hl Hq0 Hqq Hq1.
  assert (Hn : (1 <= length l)%nat) by (destruct l; [congruence | simpl; lia]).
  assert (Hq1' : (q <= 1)%Q) by (eapply Qle_trans; eassumption).
  assert (Hq0' : (0 <= q')%Q) by (eapply Qle_trans; eassumption).
  destruct (quantile_real_between Hl Hq0 Hq1') as [Hk [Ha Hb]].
  destruct (quantile_real_between Hl Hq0' Hq1) as [Hk' [Ha' Hb']].
  set (m := (Z.of_nat (length l) - 1)%Z) in *.
  assert (Hv : (inject_Z m * q <= inject_Z m * q')%Q).
  { rewrite (Qmult_comm (inject_Z m) q), (Qmult_comm (inject_Z m) q').
    apply Qmult_le_compat_r; [exact Hqq |].
    change 0%Q with (inject_Z 0). rewrite <- Zle_Qle. unfold m. lia. }
  pose proof (Qfloor_resp_le _ _ Hv) as Hkk.
  set (k := Qfloor (inject_Z m * q)) in *.
  set (k' := Qfloor (inject_Z m * q')) in *.
  destruct (Z.eq_dec k k') as [E | NE].
  - unfold quantile_real. fold m. fold k. fold k'. rewrite <- E.
    assert (Hab : nth (Z.to_nat k) (Rsort l) 0
                  <= nth (Z.to_nat (Z.min (k + 1) m)) (Rsort l) 0).
    { apply sorted_nth; [apply Rsort_sorted |]. rewrite Rsort_length. unfold m in *. lia. }
    apply Qle_Rle in Hv.
    set (a := nth (Z.to_nat k) (Rsort l) 0) in *.
    set (b := nth (Z.to_nat (Z.min (k + 1) m)) (Rsort l) 0) in *.
    nra.
  - assert (Hmid : nth (Z.to_nat (Z.min (k + 1) m)) (Rsort l) 0
                   <= nth (Z.to_nat k') (Rsort l) 0).
    { apply sorted_nth; [apply Rsort_sorted |]. rewrite Rsort_length. unfold m in *. lia. }
    lra.
Qed.

Lemma quartile_levels :
  (0 <= 0.25)%Q /\ (0.25 <= 0.75)%Q /\ (0.75 <= 1)%Q /\
  (0.25 <= 1)%Q /\ (0 <= 0.75)%Q.
Proof. unfold Qle. cbn. lia. Qed.

Lemma outlier_bounds_iqr_exact (l : list R) :
  l <> [] ->
  let q1 := quantile_real l 0.25 in
  let q3 := quantile_real l 0.75 in
  outlier_bounds (F := xreal) "iqr" (map Fin l)
  = (Fin (q1 - 3 / 2 * (q3 - q1)), Fin (q3 + 3 / 2 * (q3 - q1))).
Proof.
  intros Hl q1 q3. destruct quartile_levels as (H0 & _ & H1 & H2 & H3).
  unfold outlier_bounds. cbn [String.eqb Ascii.eqb Bool.eqb].
  rewrite !quantile_exact by assumption. fold q1 q3.
  rewrite of_Q_Q2R.
  assert (E : Q2R 1.5 = 3 / 2) by (unfold Q2R; cbn; lra).
  rewrite E. exact_ops. autorewrite with xreal. reflexivity.
Qed.

Lemma filter_length_lt {X : Type} (f : X -> bool) (l : list X) (x : X) :
  In x l -> f x = false -> (length (filter f l) < length l)%nat.
Proof.
  induction l as [|y l IH]; intros Hin Hf; [contradiction |].
  simpl. destruct Hin as [-> | Hin].
  - rewrite Hf. pose proof (filter_length_le f l). lia.
  - specialize (IH Hin Hf). destruct (f y); simpl; lia.
Qed.

(** X17: with the IQR method, in exact arithmetic, the bounds enclose both
    quartiles: [lower <= Q1 <= Q3 <= upper], so no value between the
    quartiles is ever counted as an outlier. *)
Theorem outlier_bounds_iqr_enclose (l : list R) :
  l <> [] ->
  exists q1 q3 lo up,
    quantile (F := xreal) (map Fin l) 0.25 = Fin q1 /\
    quantile (F := xreal) (map Fin l) 0.75 = Fin q3 /\
    outlier_bounds (F := xreal) "iqr" (map Fin l) = (Fin lo, Fin up) /\
    lo <= q1 /\ q1 <= q3 /\ q3 <= up /\
    forall x, q1 <= x <= q3 ->
              ~ In (Fin x) (outliers (F := xreal) (map Fin l) (Fin lo) (Fin up)).
Proof.
  intros Hl. destruct quartile_levels as (H0 & H01 & H1 & H2 & H3).
  pose proof (quantile_real_mono Hl H0 H01 H1) as Hq.
  set (q1 := quantile_real l 0.25) in *. set (q3 := quantile_real l 0.75) in *.
  exists q1, q3, (q1 - 3 / 2 * (q3 - q1)), (q3 + 3 / 2 * (q3 - q1)).
  split; [now apply quantile_exact |]. split; [now apply quantile_exact |].
  split; [now apply outlier_bounds_iqr_exact |]. repeat (split; [lra |]).
  intros x Hx Hin. unfold outliers in Hin. apply filter_In in Hin.
  destruct Hin as [_ Hf]. exact_ops. rewrite !xltb_fin in Hf.
  rewrite !Rltb_false in Hf by lra. discriminate.
Qed.

Lemma outlier_bounds_iqr_enclose_witness :
  [1; 2; 4] <> [] /\
  exists q1 q3 lo up,
    quantile (F := xreal) (map Fin [1; 2; 4]) 0.25 = Fin q1 /\
    quantile (F := xreal) (map Fin [1; 2; 4]) 0.75 = Fin q3 /\
    outlier_bounds (F := xreal) "iqr" (map Fin [1; 2; 4]) = (Fin lo, Fin up) /\
    lo <= q1 /\ q1 <= q3 /\ q3 <= up /\
    forall x, q1 <= x <= q3 ->
              ~ In (Fin x) (outliers (F := xreal) (map Fin [1; 2; 4]) (Fin lo) (Fin up)).
Proof.
  assert (H : [1; 2; 4] <> []) by discriminate.
  split; [exact H |]. apply (outlier_bounds_iqr_enclose H).
Defined.

(** Some value lies within the IQR bounds. *)
Lemma iqr_bounds_hold_a_value (l : list R) :
  l <> [] ->
  let q1 := quantile_real l 0.25 in
  let q3 := quantile_real l 0.75 in
  exists e, In e l /\ q1 - 3 / 2 * (q3 - q1) <= e <= q3 + 3 / 2 * (q3 - q1).
Proof.
  intros Hl. destruct quartile_levels as (H0 & H01 & H1 & H2 & H3).
  assert (Hn : (1 <= length l)%nat) by (destruct l; [congruence | simpl; lia]).
  pose proof (quantile_real_mono Hl H0 H01 H1) as Hq.
  destruct (quantile_real_between Hl H0 H2) as [Hk1 [Ha1 Hb1]].
  destruct (quantile_real_between Hl H3 H1) as [Hk3 [Ha3 Hb3]].
  cbv zeta.
  set (m := (Z.of_nat (length l) - 1)%Z) in *.
  set (k1 := Qfloor (inject_Z m * 0.25)) in *.
  set (k3 := Qfloor (inject_Z m * 0.75)) in *.
  set (e := nth (Z.to_nat (Z.min (k1 + 1) m)) (Rsort l) 0) in *.
  assert (He : In e l).
  { apply (Permutation_in _ (Rsort_permutation l)). apply nth_In.
    rewrite Rsort_length. unfold m in *. lia. }
  exists e. split; [exact He |].
  assert (Ek1 : k1 = (m * 25 / 100)%Z) by reflexivity.
  assert (Ek3 : k3 = (m * 75 / 100)%Z) by reflexivity.
  destruct (Z.eq_dec m 1) as [Em1 | Em1].
  - (* two values: both quartiles lie between them *)
    assert (E1 : k1 = 0%Z) by (rewrite Ek1, Em1; reflexivity).
    assert (E3 : k3 = 0%Z) by (rewrite Ek3, Em1; reflexivity).
    assert (Hs : nth 0 (Rsort l) 0 <= nth 1 (Rsort l) 0).
    { apply sorted_nth; [apply Rsort_sorted |]. rewrite Rsort_length. unfold m in Em1. lia. }
    assert (Eq1 : quantile_real l 0.25
                  = nth 0 (Rsort l) 0 + (nth 1 (Rsort l) 0 - nth 0 (Rsort l) 0) * (1 / 4)).
    { unfold quantile_real. fold m. fold k1. rewrite E1, Em1.
      change (Z.to_nat 0) with 0%nat. change (Z.to_nat (Z.min (0 + 1) 1)) with 1%nat.
      replace (Q2R (inject_Z 1 * 0.25) - 0) with (1 / 4)
        by (unfold Q2R; cbn; lra).
      reflexivity. }
    assert (Eq3 : quantile_real l 0.75
                  = nth 0 (Rsort l) 0 + (nth 1 (Rsort l) 0 - nth 0 (Rsort l) 0) * (3 / 4)).
    { unfold quantile_real. fold m. fold k3. rewrite E3, Em1.
      change (Z.to_nat 0) with 0%nat. change (Z.to_nat (Z.min (0 + 1) 1)) with 1%nat.
      replace (Q2R (inject_Z 1 * 0.75) - 0) with (3 / 4)
        by (unfold Q2R; cbn; lra).
      reflexivity. }
    assert (Ee : e = nth 1 (Rsort l) 0).
    { unfold e. rewrite E1, Em1. reflexivity. }
    rewrite Eq1, Eq3, Ee. lra.
  - (* otherwise the value after the lower quartile is below the upper one *)
    assert (Hkk : (Z.min (k1 + 1) m <= k3)%Z).
    { rewrite Ek1, Ek3 in *. unfold m in *.
      Z.to_euclidean_division_equations. lia. }
    assert (Hmid : e <= nth (Z.to_nat k3) (Rsort l) 0).
    { apply sorted_nth; [apply Rsort_sorted |]. rewrite Rsort_length. unfold m in *. lia. }
    lra.
Qed.

Lemma outlier_count_iqr_lt (l : list R) :
  l <> [] ->
  (0 <= outlier_count (outlier_stats (F := xreal) "iqr" (map Fin l))
   < Z.of_nat (length l))%Z.
Proof.
  intros Hl. unfold outlier_stats.
  rewrite (outlier_bounds_iqr_exact Hl). cbn [outlier_count].
  destruct (iqr_bounds_hold_a_value Hl) as [e [He Hb]].
  split; [lia |]. apply inj_lt.
  rewrite <- (length_map Fin l).
  apply (filter_length_lt _ (map Fin l) (Fin e)); [now apply in_map |].
  exact_ops. rewrite !xltb_fin, !Rltb_false by lra. reflexivity.
Qed.

Lemma dropna_float_exact (xs : list cell) :
  dropna_float (F := xreal) xs = map Fin (real_values xs).
Proof.
  unfold dropna_float, real_values.
  induction xs as [|c xs IH]; [reflexivity |].
  cbn [flat_map]. rewrite IH, map_app, to_float_exact.
  destruct (cell_real c); reflexivity.
Qed.

(** X18: with the IQR method, in exact arithmetic, no column has all of its
    values counted as outliers: the count of every entry of the result is
    below the number of values of its column. *)
Theorem outlier_detection_iqr_not_all (df : DataFrame) (col : string)
    (st : OutlierStats xreal) :
  In (col, st) (outlier_detection (F := xreal) df "iqr") ->
  (0 <= outlier_count st
   < Z.of_nat (length (real_values (values (getitem df col)))))%Z.
Proof.
  intros Hin. apply outlier_detection_in in Hin.
  destruct Hin as (_ & _ & Hne & ->).
  rewrite dropna_float_exact in Hne |- *.
  apply outlier_count_iqr_lt.
  intros E. apply Hne. now rewrite E.
Qed.

Lemma outlier_detection_iqr_not_all_witness :
  let st := outlier_stats (F := xreal) "iqr"
              (dropna_float (values (getitem readings "x"))) in
  In ("x"%string, st) (outlier_detection (F := xreal) readings "iqr") /\
  (0 <= outlier_count st
   < Z.of_nat (length (real_values (values (getitem readings "x")))))%Z.
Proof.
  assert (H : In ("x"%string,
                  outlier_stats (F := xreal) "iqr"
                    (dropna_float (values (getitem readings "x"))))
                 (outlier_detection (F := xreal) readings "iqr")).
  { apply outlier_detection_in. repeat split.
    - simpl. now left.
    - rewrite dropna_float_exact. simpl. discriminate. }
  split; [exact H |].
  apply (outlier_detection_iqr_not_all readings "x" _ H).
Defined.

Local Close Scope R_scope.

(** ** main.py: a reader that fails *)

(** X19: when loading fails the run stops with a non-zero status before the
    analysis and before any report.  A [ValueError] is logged as an
    unsupported file format with the error's own message, also when it comes
    from the reader of an existing file with a recognized extension (a file
    that cannot be parsed); any exception other than the two that [main]
    catches is not logged as an error at all. *)
Theorem main_load_failure (env : Environment) (p : Path) (profile : bool) (e : exn) :
  load_data env p "utf-8" None = inl e ->
  stopped_before_analysis (main env p profile) /\
  match e with
  | FileNotFoundError _ => In (LogError "File not found") (events (main env p profile))
  | ValueError msg =>
      In (LogError ("Unsupported file format: " ++ msg)) (events (main env p profile))
  | OtherError _ => forall msg, ~ In (LogError msg) (events (main env p profile))
  end.
Proof.
  intros E. split; [now apply (main_stops_on_error env p profile E) |].
  unfold main. rewrite E. destruct e; simpl.
  - right. now left.
  - right. now left.
  - intros m [H | []]. discriminate H.
Qed.

Lemma main_load_failure_witness :
  path_exists unreadable_files sales_csv = true /\
  recognized sales_csv = true /\
  load_data unreadable_files sales_csv "utf-8" None
  = inl (ValueError "No columns to parse from file") /\
  stopped_before_analysis (main unreadable_files sales_csv false) /\
  In (LogError "Unsupported file format: No columns to parse from file")
     (events (main unreadable_files sales_csv false)).
Proof.
  assert (E : load_data unreadable_files sales_csv "utf-8" None
              = inl (ValueError "No columns to parse from file")) by reflexivity.
  split; [reflexivity |]. split; [reflexivity |]. split; [exact E |].
  apply (main_load_failure unreadable_files sales_csv false E).
Defined.

(** ** utils.py: the columns that neither list holds *)





(** ** correlation_analysis.py: perfect association *)


Local Open Scope R_scope.




Section Diagonal.
Variable c : list Z.
Hypothesis c_positive : Forall (fun x => (0 < x)%Z) c.
Hypothesis c_nonempty : c <> [].

Let k : nat := length c.
Let f : nat -> nat -> Z := diagonal_cell c.
Let la : list nat := seq 0 k.








End Diagonal.




Local Close Scope R_scope.

(** ** cleaning_insights.py: the z-score rule on short series *)

Local Open Scope R_scope.

Lemma Rsum_over_app {X : Type} (l1 l2 : list X) (f : X -> R) :
  Rsum_over (l1 ++ l2) f = Rsum_over l1 f + Rsum_over l2 f.
Proof. unfold Rsum_over. now rewrite map_app, Rsum_app. Qed.

(** No value is further from the mean than [(n - 1) / sqrt n] standard
    deviations (Samuelson). *)
Lemma deviation_bound (l : list R) (x : R) :
  In x l ->
  let n := IZR (Z.of_nat (length l)) in
  let m := Rsum l / n in
  (x - m) * (x - m) * n <= (n - 1) * sum_sq l.
Proof.
  intros Hin n m.
  destruct (in_split x l Hin) as (l1 & l2 & El).
  set (others := l1 ++ l2).
  assert (Hn : n = INR (length others) + 1).
  { unfold n, others. rewrite El, <- INR_IZR_INZ, !length_app. cbn [length].
    rewrite !plus_INR, S_INR. lra. }
  assert (Hn0 : 0 <= INR (length others)) by apply pos_INR.
  set (d := fun y => y - m).
  assert (Esum : Rsum_over others d = - d x).
  { assert (E0 : Rsum_over l d = 0).
    { unfold d. rewrite (Rsum_over_ext l _ (fun y => y + (-1) * m)) by (intros; ring).
      rewrite Rsum_over_add, Rsum_over_scal.
      replace (Rsum_over l (fun y => y)) with (Rsum l)
        by (unfold Rsum_over; now rewrite map_id).
      rewrite Rsum_over_const, INR_IZR_INZ. fold n. unfold m. field. lra. }
    rewrite El in E0. unfold others.
    rewrite Rsum_over_app, Rsum_over_cons in E0. rewrite Rsum_over_app. lra. }
  assert (Esq : sum_sq l = d x * d x + Rsum_over others (fun y => d y * d y)).
  { unfold sum_sq. fold n. fold m.
    change (Rsum_over l (fun x0 => (x0 - m) * (x0 - m)))
      with (Rsum_over l (fun y => d y * d y)).
    rewrite El. unfold others. rewrite !Rsum_over_app, Rsum_over_cons. lra. }
  assert (E1 : Rsum_over others (fun a => d a * 1) = Rsum_over others d)
    by (apply Rsum_over_ext; intros; ring).
  assert (E2 : Rsum_over others (fun _ : R => 1 * 1) = INR (length others))
    by (rewrite Rsum_over_const; ring).
  pose proof (Rsum_over_product_sq others d (fun _ => 1)) as HCS.
  cbv beta in HCS. rewrite E1, E2, Esum in HCS.
  change ((x - m) * (x - m)) with (d x * d x).
  rewrite Esq, Hn. set (S := Rsum_over others (fun y => d y * d y)) in *.
  nra.
Qed.

Lemma sum_sq_fin (l : list R) (m : R) :
  fsum (F := xreal) (map (fun x => fmul (fsub x (Fin m)) (fsub x (Fin m))) (map Fin l))
  = Fin (Rsum_over l (fun x => (x - m) * (x - m))).
Proof.
  rewrite map_map.
  rewrite (map_ext _ (fun x => Fin ((x - m) * (x - m)))) by (intros; reflexivity).
  rewrite <- (map_map (fun x => (x - m) * (x - m)) Fin), fsum_fin. reflexivity.
Qed.

Lemma std_fin (l : list R) :
  (2 <= length l)%nat ->
  std (F := xreal) (map Fin l)
  = Fin (sqrt (sum_sq l / IZR (Z.of_nat (length l) - 1))).
Proof.
  intros Hn. unfold std.
  rewrite mean_fin by (destruct l; [simpl in Hn; lia | discriminate]).
  rewrite sum_sq_fin, length_map. exact_ops.
  assert (Hp : 0 < IZR (Z.of_nat (length l) - 1)) by (apply IZR_lt; lia).
  rewrite xdiv_fin by lra.
  rewrite xsqrt_fin; [reflexivity |].
  apply Rmult_le_pos; [apply sum_sq_nonneg | left; now apply Rinv_0_lt_compat].
Qed.

Lemma outlier_bounds_zscore_exact (method : string) (l : list R) :
  String.eqb method "iqr" = false -> (2 <= length l)%nat ->
  let m := Rsum l / IZR (Z.of_nat (length l)) in
  let s := sqrt (sum_sq l / IZR (Z.of_nat (length l) - 1)) in
  outlier_bounds (F := xreal) method (map Fin l) = (Fin (m - 3 * s), Fin (m + 3 * s)).
Proof.
  intros Hm Hn m s. unfold outlier_bounds. rewrite Hm.
  rewrite mean_fin by (destruct l; [simpl in Hn; lia | discriminate]).
  rewrite std_fin by exact Hn. exact_ops. autorewrite with xreal. reflexivity.
Qed.

(** Up to ten values, none is more than three standard deviations away
    from the mean. *)
Lemma within_three_deviations (l : list R) (x : R) :
  (2 <= length l <= 10)%nat -> In x l ->
  let m := Rsum l / IZR (Z.of_nat (length l)) in
  let s := sqrt (sum_sq l / IZR (Z.of_nat (length l) - 1)) in
  m - 3 * s <= x <= m + 3 * s.
Proof.
  intros Hn Hin m s.
  pose proof (deviation_bound l x Hin) as HS. cbv zeta in HS. fold m in HS.
  assert (Hz : ((Z.of_nat (length l) - 1) * (Z.of_nat (length l) - 1)
                <= 9 * Z.of_nat (length l))%Z) by nia.
  apply IZR_le in Hz. rewrite !mult_IZR, minus_IZR in Hz.
  assert (Hn2 : 2 <= IZR (Z.of_nat (length l))) by (apply IZR_le; lia).
  pose proof (sum_sq_nonneg l) as HSS.
  assert (Hq : 0 <= sum_sq l / IZR (Z.of_nat (length l) - 1)).
  { apply Rmult_le_pos; [exact HSS |]. left. apply Rinv_0_lt_compat.
    rewrite minus_IZR. lra. }
  pose proof (sqrt_sqrt _ Hq) as Hss. fold s in Hss.
  pose proof (sqrt_pos (sum_sq l / IZR (Z.of_nat (length l) - 1))) as Hs0.
  fold s in Hs0. rewrite minus_IZR in Hss.
  set (n := IZR (Z.of_nat (length l))) in *. set (S := sum_sq l) in *.
  set (d := x - m) in *.
  assert (HS' : S = s * s * (n - 1)) by (rewrite Hss; field; lra).
  assert (Hd : d * d <= 9 * (s * s)).
  { assert (H1 : d * d * n * (n - 1) <= (n - 1) * S * (n - 1))
      by (apply Rmult_le_compat_r; lra).
    assert (H2 : d * d * ((n - 1) * (n - 1)) <= d * d * (9 * n))
      by (apply Rmult_le_compat_l; [apply Rle_0_sqr | lra]).
    rewrite HS' in H1.
    assert (H3 : d * d * ((n - 1) * (n - 1)) <= 9 * (s * s) * ((n - 1) * (n - 1)))
      by nra.
    apply (Rmult_le_reg_r ((n - 1) * (n - 1))); [nra | exact H3]. }
  assert (Hup : d <= 3 * s) by nra.
  assert (Hlo : - (3 * s) <= d) by nra.
  unfold d in *. lra.
Qed.

Lemma filter_none {X : Type} (f : X -> bool) (l : list X) :
  (forall x, In x l -> f x = false) -> filter f l = [].
Proof.
  induction l as [|y l IH]; intros H; [reflexivity |].
  simpl. rewrite (H y) by now left. apply IH. intros x Hx. apply H. now right.
Qed.

Lemma outliers_zscore_small (method : string) (l : list R) :
  String.eqb method "iqr" = false -> (1 <= length l <= 10)%nat ->
  outliers (F := xreal) (map Fin l)
           (fst (outlier_bounds (F := xreal) method (map Fin l)))
           (snd (outlier_bounds (F := xreal) method (map Fin l))) = [].
Proof.
  intros Hm Hn.
  destruct (Nat.eq_dec (length l) 1) as [E1 | NE1].
  - destruct l as [|c [|c' l']]; try discriminate E1.
    unfold outlier_bounds. rewrite Hm. cbn [map].
    rewrite mean_single, std_single. reflexivity.
  - rewrite (outlier_bounds_zscore_exact method l Hm) by lia. cbn [fst snd].
    unfold outliers. apply filter_none. intros y Hy.
    apply in_map_iff in Hy. destruct Hy as (x & <- & Hx).
    pose proof (within_three_deviations l x ltac:(lia) Hx) as Hb. cbv zeta in Hb.
    exact_ops. rewrite !xltb_fin, !Rltb_false by lra. reflexivity.
Qed.

(** X22: with the z-score method (any method other than "iqr"), in exact
    arithmetic, a column with at most ten non-missing values never has an
    outlier: no value can be more than three sample standard deviations
    away from the mean of so few values. *)
Theorem outlier_detection_zscore_small (df : DataFrame) (method col : string)
    (st : OutlierStats xreal) :
  String.eqb method "iqr" = false ->
  In (col, st) (outlier_detection (F := xreal) df method) ->
  (length (real_values (values (getitem df col))) <= 10)%nat ->
  outlier_count st = 0%Z /\ outlier_percent st = Fin 0.
Proof.
  intros Hm Hin Hlen. apply outlier_detection_in in Hin.
  destruct Hin as (_ & _ & Hne & ->).
  rewrite dropna_float_exact in Hne |- *.
  set (l := real_values (values (getitem df col))) in *.
  assert (Hn : (1 <= length l <= 10)%nat).
  { split; [| exact Hlen]. destruct l; [now contradiction Hne | simpl; lia]. }
  pose proof (outliers_zscore_small method l Hm Hn) as Ho.
  unfold outlier_stats.
  destruct (outlier_bounds method (map Fin l)) as [lo up]. cbn [fst snd] in Ho.
  cbn [outlier_count outlier_percent]. rewrite Ho. cbn [length Z.of_nat].
  split; [reflexivity |].
  rewrite length_map. exact_ops.
  rewrite xdiv_fin by (apply not_0_IZR; lia). rewrite xmul_fin.
  replace (0 / IZR (Z.of_nat (length l)) * 100) with (IZR 0)
    by (field; apply not_0_IZR; lia).
  apply xround_integer.
Qed.

Lemma outlier_detection_zscore_small_witness :
  let st := outlier_stats (F := xreal) "zscore"
              (dropna_float (values (getitem readings "x"))) in
  In ("x"%string, st) (outlier_detection (F := xreal) readings "zscore") /\
  outlier_count st = 0%Z /\ outlier_percent st = Fin 0.
Proof.
  assert (H : In ("x"%string,
                  outlier_stats (F := xreal) "zscore"
                    (dropna_float (values (getitem readings "x"))))
                 (outlier_detection (F := xreal) readings "zscore")).
  { apply outlier_detection_in. repeat split.
    - simpl. now left.
    - rewrite dropna_float_exact. simpl. discriminate. }
  split; [exact H |].
  apply (@outlier_detection_zscore_small readings "zscore" "x" _ eq_refl H).
  simpl. lia.
Defined.

Local Close Scope R_scope.
